(** * Metrics reporting bridge of the Go SDK harness

    A shallow embedding of
    [sdks/go/pkg/beam/core/runtime/harness/monitoring.go]:
    the URN registry ([urnToType]), the payload encoders ([int64Counter],
    [int64Latest], [int64Distribution]), the short-id cache
    ([shortIDCache], [getShortID], [shortIdsToInfos]) and the snapshot
    builder ([monitoring]).

    Conventions.
    - [int64] values are [Z]; [uint32]/[uint64] values and bytes are [N].
      Fixed-width wrap-around is written out ([wrap64], [uint64_of_int64]).
    - Go maps are [gmap]s; a map or pointer that may be [nil] is an
      [option].  A slice built with [append] from a [var] declaration is a
      [list] ([nil] is the empty list).
    - A Go panic is the [Panic] outcome of the [M] monad; the state reached
      before the panic is kept, since the cache is a process-wide object.
    - Each Go package the file imports is a module of the same name that
      holds what the harness uses of it. *)

From Stdlib Require Import ZArith NArith Lia.
From Stdlib Require Import Ascii String.
From stdpp Require Import base option list strings gmap fin_maps.

Local Open Scope string_scope.
Local Open Scope list_scope.

(** ** Go run-time outcomes *)

(** The Go [error] interface, observed through its message. *)
Definition error := string.

(** What a [panic] carries: a string, an [error] value, or the run-time
    error raised by indexing a slice out of range. *)
Inductive panicValue :=
| PanicString (msg : string)
| PanicError (err : error)
| IndexOutOfRange (index : N) (len : nat).

Inductive outcome (A : Type) :=
| Ok (a : A)
| Panic (p : panicValue).
Arguments Ok {A} a.
Arguments Panic {A} p.

(** [s[i]] on a slice of strings: a run-time panic when [i] is not below
    [len(s)]. *)
Definition index (s : list string) (i : N) : outcome string :=
  match s !! N.to_nat i with
  | Some x => Ok x
  | None => Panic (IndexOutOfRange i (length s))
  end.

(** Computations over a mutable state [S] that may panic. *)
Definition M (S A : Type) : Type := S -> outcome A * S.

Definition ret {S A} (a : A) : M S A := fun s => (Ok a, s).

Definition bind {S A B} (m : M S A) (k : A -> M S B) : M S B :=
  fun s =>
    match m s with
    | (Ok a, s') => k a s'
    | (Panic p, s') => (Panic p, s')
    end.

Definition panic {S A} (p : panicValue) : M S A := fun s => (Panic p, s).

Definition get {S} : M S S := fun s => (Ok s, s).

Definition modify {S} (f : S -> S) : M S unit := fun s => (Ok tt, f s).

(** A pure step that may panic. *)
Definition liftO {S A} (o : outcome A) : M S A := fun s => (o, s).

Notation "'let*' x ':=' m 'in' k" := (bind m (fun x => k))
  (at level 10, x name, m at level 100, k at level 200).

(** Fixed-width integers. *)
Definition wrap64 (z : Z) : Z := ((z + 2 ^ 63) mod 2 ^ 64 - 2 ^ 63)%Z.

Definition uint64_of_int64 (z : Z) : N := Z.to_N (z mod 2 ^ 64).

Definition int64 (z : Z) : Prop := (- 2 ^ 63 <= z < 2 ^ 63)%Z.

(** ** Package [strconv] (Go standard library) *)

Module strconv.

Local Open Scope N_scope.

Definition digits : string := "0123456789abcdefghijklmnopqrstuvwxyz".

Definition digit (d : N) : ascii :=
  match String.get (N.to_nat d) digits with
  | Some c => c
  | None => "0"%char
  end.

(** The general case of [formatBits]:
    [for u >= b { i--; q := u / b; a[i] = digits[u - q*b]; u = q };
     i--; a[i] = digits[u]].
    The digits are written from the end of the buffer towards its start;
    [acc] is the part already written.  The loop runs once per digit, so
    [N.log2 u] iterations always suffice when [2 <= b]
    ([formatBits_loop_unfold]). *)
Fixpoint formatBits_loop (fuel : nat) (b u : N) (acc : string) : string :=
  if b <=? u then
    match fuel with
    | O => acc
    | S fuel' =>
        let q := u / b in
        formatBits_loop fuel' b q (String (digit (u - q * b)) acc)
    end
  else String (digit u) acc.

Definition formatBits (u : N) (base : N) (neg : bool) : string :=
  let a := formatBits_loop (N.to_nat (N.log2 u)) base u "" in
  if neg then String "-"%char a else a.

(** [FormatInt(i, base)] for [2 <= base <= 36]:
    [formatBits(nil, uint64(i), base, i < 0, false)], which negates [u]
    (modulo 2^64) when [neg]. *)
Definition FormatInt (i : Z) (base : N) : string :=
  let u := uint64_of_int64 i in
  let neg := (i <? 0)%Z in
  let u := if neg then (2 ^ 64 - u) mod 2 ^ 64 else u in
  formatBits u base neg.

End strconv.

(** ** Packages [io] and [bytes] (Go standard library) *)

Definition byte := N.

(** [io.Writer]: [Write(p)] returns the number of bytes written and an
    error. *)
Class Writer (W : Type) := Write : W -> list byte -> W * (nat * option error).

Module bytes.

Record Buffer := { Bytes : list byte }.

(** [var buf bytes.Buffer] *)
Definition empty : Buffer := {| Bytes := [] |}.

(** [Buffer.Write] appends [p]; its error is always nil. *)
#[global] Instance Buffer_Writer : Writer Buffer :=
  fun b p => ({| Bytes := Bytes b ++ p |}, (length p, None)).

End bytes.

(** ** Package [coder] *)

Module coder.

Local Open Scope N_scope.

(** Modelled from the spec: [coder.EncodeVarInt] is not among the sources.
    The spec (4.2) gives the encoding: base 128, seven significant bits per
    byte, the continuation bit in the high bit, least-significant group
    first.  An [int64] is encoded through its [uint64] bit pattern, and the
    encoded bytes go to the writer in one [Write], whose error is
    returned.

    [for { bits := value & 0x7f; value >>= 7;
           if value != 0 { mask = 0x80 }; ret = append(ret, bits|mask);
           if value == 0 { write ret } }]
    A group is produced per iteration, so [N.log2 value] iterations always
    suffice ([varint_unfold]). *)
Fixpoint EncodeVarUint64_loop (fuel : nat) (value : N) : list byte :=
  let bits := N.land value 127 in
  let value' := N.shiftr value 7 in
  if value' =? 0 then [bits]
  else
    match fuel with
    | O => [bits]
    | S fuel' => N.lor bits 128 :: EncodeVarUint64_loop fuel' value'
    end.

Definition varuint (value : N) : list byte :=
  EncodeVarUint64_loop (N.to_nat (N.log2 value)) value.

Definition EncodeVarUint64 {W} `{Writer W} (value : N) (w : W) : W * option error :=
  let '(w', (_, err)) := Write w (varuint value) in (w', err).

Definition EncodeVarInt {W} `{Writer W} (value : Z) (w : W) : W * option error :=
  EncodeVarUint64 (uint64_of_int64 value) w.

(** The bytes of [varint(v)]. *)
Definition varint (v : Z) : list byte := varuint (uint64_of_int64 v).

End coder.

(** ** Packages [time], [ptypes] and [mtime] *)

Module time.

(** A [time.Time] instant, by what [Unix()] and [Nanosecond()] return. *)
Record Time := { Unix : Z; Nanosecond : Z }.

End time.

Module ptypes.

Record Timestamp := { Seconds : Z; Nanos : Z }.

End ptypes.

(** The two conversions the harness calls are not among the sources and
    are taken as parameters: [ptypes.TimestampProto(t)], which fails on an
    instant outside the range of the wire format, and
    [mtime.FromTime(t).Milliseconds()], the epoch milliseconds of [t] as an
    [int64]. *)
Class TimeAPI := {
  TimestampProto : time.Time -> ptypes.Timestamp + error;
  FromTime_Milliseconds : time.Time -> Z
}.

(** ** Package [metrics] *)

Module metrics.

(** Modelled from the spec: the declaration of [metrics.Labels] is not
    among the sources.  The spec (3) gives a metric identity as transform
    id, namespace and name (plus the URN, which [shortKey] adds). *)
Record Labels := { transform : string; namespace : string; name : string }.

Definition Transform (l : Labels) : string := transform l.
Definition Namespace (l : Labels) : string := namespace l.
Definition Name (l : Labels) : string := name l.

#[global] Instance Labels_eq_dec : EqDecision Labels.
Proof. solve_decision. Defined.

#[global] Program Instance Labels_countable : Countable Labels :=
  inj_countable'
    (fun l => (transform l, namespace l, name l))
    (fun t => {| transform := t.1.1; namespace := t.1.2; name := t.2 |}) _.
Next Obligation. by intros []. Qed.

(** Modelled from the spec: [metrics.Store] and [Extractor.ExtractFrom]
    are not among the sources.  The spec (1, 6) describes the store as an
    object offering a push-style extraction of all current values through
    callbacks keyed by metric shape (scalar, distribution, gauge).  A store
    is the sequence of its cells in the order an extraction visits them;
    the two extractions of one [monitoring] call visit them in that same
    order.  The sequence may be any list: nothing below relies on a label
    occurring once. *)
Inductive cell :=
| Counter (v : Z)
| Distribution (count sum min max : Z)
| Gauge (v : Z) (t : time.Time).

Definition Store := list (Labels * cell).

Record Extractor (S : Type) := {
  SumInt64 : Labels -> Z -> M S unit;
  DistributionInt64 : Labels -> Z -> Z -> Z -> Z -> M S unit;
  GaugeInt64 : Labels -> Z -> time.Time -> M S unit
}.
Arguments SumInt64 {S} _.
Arguments DistributionInt64 {S} _.
Arguments GaugeInt64 {S} _.

Definition visit {S} (e : Extractor S) (lc : Labels * cell) : M S unit :=
  match lc.2 with
  | Counter v => SumInt64 e lc.1 v
  | Distribution count sum min max => DistributionInt64 e lc.1 count sum min max
  | Gauge v t => GaugeInt64 e lc.1 v t
  end.

Fixpoint ExtractFrom {S} (e : Extractor S) (store : Store) : M S unit :=
  match store with
  | [] => ret tt
  | lc :: rest => let* _ := visit e lc in ExtractFrom e rest
  end.

End metrics.

(** ** Package [pipeline_v1] ([ppb]) *)

Module ppb.

(** The fields of the generated [MonitoringInfo] message that the harness
    sets. *)
Record MonitoringInfo := {
  Urn : string;
  Type_ : string;
  Labels : gmap string string;
  Payload : list byte
}.

End ppb.

(** ** Package [fnexecution_v1] ([fnpb]) *)

Module fnpb.

Record Metrics_User_MetricName := { Name : string; Namespace : string }.

Record Metrics_User_CounterData := { Value : Z }.

Record Metrics_User_DistributionData :=
  { Count : Z; Sum : Z; Min : Z; Max : Z }.

Record Metrics_User_GaugeData :=
  { GaugeValue : Z; Timestamp : ptypes.Timestamp }.

(** The [Data] one-of. *)
Inductive Metrics_User_Data :=
| CounterData (d : Metrics_User_CounterData)
| DistributionData (d : Metrics_User_DistributionData)
| GaugeData (d : Metrics_User_GaugeData).

Record Metrics_User := {
  MetricName : Metrics_User_MetricName;
  Data : Metrics_User_Data
}.

Record Metrics_PTransform_Measured := {
  OutputElementCounts : gmap string Z
}.

Record Metrics_PTransform_ProcessedElements := {
  Measured : option Metrics_PTransform_Measured
}.

Record Metrics_PTransform := {
  ProcessedElements : option Metrics_PTransform_ProcessedElements;
  User : list Metrics_User
}.

Record Metrics := { Ptransforms : gmap string Metrics_PTransform }.

End fnpb.

(** ** Package [exec] *)

Module exec.

Record ProgressReportSnapshot := {
  ID : string;
  Name : string;
  PID : string;
  Count : Z
}.

(** Modelled from the spec: [exec.Plan] is not among the sources.  The
    harness reads a plan through [p.Store()], which is nil while no store
    is attached, and [p.Progress()], an optional progress snapshot. *)
Record Plan := {
  Store : option metrics.Store;
  Progress : option ProgressReportSnapshot
}.

End exec.

(** * Package [harness]: monitoring.go *)

(** ** Protocol schema registry *)

Section registry.
Local Open Scope N_scope.


Definition mUrn := N.
Definition mType := N.

Definition sUrns : list string :=
  [ "beam:metric:user:sum_int64:v1";
    "beam:metric:user:sum_double:v1";
    "beam:metric:user:distribution_int64:v1";
    "beam:metric:user:distribution_double:v1";
    "beam:metric:user:latest_int64:v1";
    "beam:metric:user:latest_double:v1";
    "beam:metric:user:top_n_int64:v1";
    "beam:metric:user:top_n_double:v1";
    "beam:metric:user:bottom_n_int64:v1";
    "beam:metric:user:bottom_n_double:v1";

    "beam:metric:element_count:v1";
    "beam:metric:sampled_byte_size:v1";

    "beam:metric:pardo_execution_time:start_bundle_msecs:v1";
    "beam:metric:pardo_execution_time:process_bundle_msecs:v1";
    "beam:metric:pardo_execution_time:finish_bundle_msecs:v1";
    "beam:metric:ptransform_execution_time:total_msecs:v1";

    "beam:metric:ptransform_progress:remaining:v1";
    "beam:metric:ptransform_progress:completed:v1";

    "TestingSentinelUrn" ].

(* iota constants *)
Definition urnUserSumInt64 : mUrn := 0.
Definition urnUserSumFloat64 : mUrn := 1.
Definition urnUserDistInt64 : mUrn := 2.
Definition urnUserDistFloat64 : mUrn := 3.
Definition urnUserLatestMsInt64 : mUrn := 4.
Definition urnUserLatestMsFloat64 : mUrn := 5.
Definition urnUserTopNInt64 : mUrn := 6.
Definition urnUserTopNFloat64 : mUrn := 7.
Definition urnUserBottomNInt64 : mUrn := 8.
Definition urnUserBottomNFloat64 : mUrn := 9.
Definition urnElementCount : mUrn := 10.
Definition urnSampledByteSize : mUrn := 11.
Definition urnStartBundle : mUrn := 12.
Definition urnProcessBundle : mUrn := 13.
Definition urnFinishBundle : mUrn := 14.
Definition urnTransformTotalTime : mUrn := 15.
Definition urnProgressRemaining : mUrn := 16.
Definition urnProgressCompleted : mUrn := 17.
Definition urnTestSentinel : mUrn := 18.

Definition sTypes : list string :=
  [ "beam:metrics:sum_int64:v1";
    "beam:metrics:sum_double:v1";
    "beam:metrics:distribution_int64:v1";
    "beam:metrics:distribution_double:v1";
    "beam:metrics:latest_int64:v1";
    "beam:metrics:latest_double:v1";
    "beam:metrics:top_n_int64:v1";
    "beam:metrics:top_n_double:v1";
    "beam:metrics:bottom_n_int64:v1";
    "beam:metrics:bottom_n_double:v1";
    "beam:metrics:monitoring_table:v1";
    "beam:metrics:progress:v1";

    "TestingSentinelType" ].

Definition typeSumInt64 : mType := 0.
Definition typeSumFloat64 : mType := 1.
Definition typeDistInt64 : mType := 2.
Definition typeDistFloat64 : mType := 3.
Definition typeLatestMsInt64 : mType := 4.
Definition typeLatestMsFloat64 : mType := 5.
Definition typeTopNInt64 : mType := 6.
Definition typeTopNFloat64 : mType := 7.
Definition typeBottomNInt64 : mType := 8.
Definition typeBottomNFloat64 : mType := 9.
Definition typeMonitoringTable : mType := 10.
Definition typeProgress : mType := 11.
Definition typeTestSentinel : mType := 12.

(** [case a, b, c:] of a Go [switch u]. *)
Definition oneOf (u : mUrn) (cases : list mUrn) : bool :=
  existsb (N.eqb u) cases.

(** The [default:] arm.  The argument of [panic] is evaluated first, so the
    string is only produced when [sUrns[u]] is in range. *)
Definition urnToType_default (u : mUrn) : outcome mType :=
  match index sUrns u with
  | Ok name => Panic (PanicString ("metric urn without specified type" +:+ name))
  | Panic p => Panic p
  end.

Definition urnToType (u : mUrn) : outcome mType :=
  if oneOf u [urnUserSumInt64; urnElementCount; urnStartBundle;
              urnProcessBundle; urnFinishBundle; urnTransformTotalTime]
  then Ok typeSumInt64
  else if oneOf u [urnUserSumFloat64] then Ok typeSumFloat64
  else if oneOf u [urnUserDistInt64; urnSampledByteSize] then Ok typeDistInt64
  else if oneOf u [urnUserDistFloat64] then Ok typeDistFloat64
  else if oneOf u [urnUserLatestMsInt64] then Ok typeLatestMsInt64
  else if oneOf u [urnUserLatestMsFloat64] then Ok typeLatestMsFloat64
  else if oneOf u [urnUserTopNInt64] then Ok typeTopNInt64
  else if oneOf u [urnUserTopNFloat64] then Ok typeTopNFloat64
  else if oneOf u [urnUserBottomNInt64] then Ok typeSumInt64
  else if oneOf u [urnUserBottomNFloat64] then Ok typeBottomNFloat64
  else if oneOf u [urnProgressRemaining; urnProgressCompleted] then Ok typeProgress
  else if oneOf u [urnTestSentinel] then Ok typeTestSentinel
  else urnToType_default u.

(** The URNs the registry knows: the declared constants, i.e. the indices
    of [sUrns]. *)
Definition supported (u : mUrn) : Prop := u < N.of_nat (length sUrns).

End registry.

(** ** Short-id cache *)

Record shortKey := { Labels : metrics.Labels; Urn : mUrn }.

#[global] Instance shortKey_eq_dec : EqDecision shortKey.
Proof. solve_decision. Defined.

#[global] Program Instance shortKey_countable : Countable shortKey :=
  inj_countable'
    (fun k => (Labels k, Urn k))
    (fun p => {| Labels := p.1; Urn := p.2 |}) _.
Next Obligation. by intros []. Qed.

(** The mutex [mu] is not modelled: every operation below runs inside
    the critical section, one at a time. *)
Record shortIDCache := {
  labels2ShortIds : gmap shortKey string;
  shortIds2Infos : gmap string ppb.MonitoringInfo;
  lastShortID : Z
}.

Definition newShortIDCache : shortIDCache :=
  {| labels2ShortIds := ∅; shortIds2Infos := ∅; lastShortID := 0 |}.

Definition set_labels2ShortIds
    (f : gmap shortKey string -> gmap shortKey string) (c : shortIDCache) :=
  {| labels2ShortIds := f (labels2ShortIds c);
     shortIds2Infos := shortIds2Infos c;
     lastShortID := lastShortID c |}.

Definition set_shortIds2Infos
    (f : gmap string ppb.MonitoringInfo -> gmap string ppb.MonitoringInfo)
    (c : shortIDCache) :=
  {| labels2ShortIds := labels2ShortIds c;
     shortIds2Infos := f (shortIds2Infos c);
     lastShortID := lastShortID c |}.

Definition set_lastShortID (f : Z -> Z) (c : shortIDCache) :=
  {| labels2ShortIds := labels2ShortIds c;
     shortIds2Infos := shortIds2Infos c;
     lastShortID := f (lastShortID c) |}.

(** [atomic.AddInt64(&c.lastShortID, 1)]: the new value, wrapping. *)
Definition AddInt64_lastShortID (delta : Z) : M shortIDCache Z :=
  let* _ := modify (set_lastShortID (fun v => wrap64 (v + delta))) in
  let* c := get in
  ret (lastShortID c).

Definition getNextShortID : M shortIDCache string :=
  let* id := AddInt64_lastShortID 1 in
  ret (strconv.FormatInt id 36).

Definition userLabels (l : metrics.Labels) : gmap string string :=
  <["NAME" := metrics.Name l]>
    (<["NAMESPACE" := metrics.Namespace l]>
       (<["PTRANSFORM" := metrics.Transform l]> ∅)).

Definition getShortID (l : metrics.Labels) (urn : mUrn) : M shortIDCache string :=
  let k := {| Labels := l; Urn := urn |} in
  let* c := get in
  match labels2ShortIds c !! k with
  | Some s => ret s
  | None =>
      let* s := getNextShortID in
      let* _ := modify (set_labels2ShortIds (insert k s)) in
      let* u := liftO (index sUrns urn) in
      let* t := liftO (urnToType urn) in
      let* ty := liftO (index sTypes t) in
      let* _ := modify (set_shortIds2Infos
                          (insert s {| ppb.Urn := u; ppb.Type_ := ty;
                                       ppb.Labels := userLabels l;
                                       ppb.Payload := [] |})) in
      ret s
  end.

(** The result maps each requested id to the cached pointer, which is nil
    ([None]) for an id the cache does not know. *)
Definition shortIdsToInfos (shortids : list string) (c : shortIDCache)
    : gmap string (option ppb.MonitoringInfo) :=
  foldl (fun m s => <[s := shortIds2Infos c !! s]> m) ∅ shortids.

(** ** Payload encoders *)

Definition int64Counter (v : Z) : list byte * option error :=
  let buf := bytes.empty in
  match coder.EncodeVarInt v buf with
  | (_, Some err) => ([], Some err)
  | (buf, None) => (bytes.Bytes buf, None)
  end.

Definition int64Latest `{TimeAPI} (t : time.Time) (v : Z) : list byte * option error :=
  let buf := bytes.empty in
  match coder.EncodeVarInt (FromTime_Milliseconds t) buf with
  | (_, Some err) => ([], Some err)
  | (buf, None) =>
      match coder.EncodeVarInt v buf with
      | (_, Some err) => ([], Some err)
      | (buf, None) => (bytes.Bytes buf, None)
      end
  end.

Definition int64Distribution (count sum min max : Z) : list byte * option error :=
  let buf := bytes.empty in
  match coder.EncodeVarInt count buf with
  | (_, Some err) => ([], Some err)
  | (buf, None) =>
      match coder.EncodeVarInt sum buf with
      | (_, Some err) => ([], Some err)
      | (buf, None) =>
          match coder.EncodeVarInt min buf with
          | (_, Some err) => ([], Some err)
          | (buf, None) =>
              match coder.EncodeVarInt max buf with
              | (_, Some err) => ([], Some err)
              | (buf, None) => (bytes.Bytes buf, None)
              end
          end
      end
  end.

(** ** Snapshot builder *)

(** The variables of one [monitoring] call, next to the process-wide
    [defaultShortIDCache].  A [*fnpb.Metrics_PTransform] held by
    [transforms] is identified with the key it is stored under: each key
    holds a pointer of its own. *)
Record frame := {
  cache : shortIDCache;
  transforms : gmap string fnpb.Metrics_PTransform;
  monitoringInfo : list ppb.MonitoringInfo;
  payloads : gmap string (list byte)
}.

Definition enter (c : shortIDCache) : frame :=
  {| cache := c; transforms := ∅; monitoringInfo := []; payloads := ∅ |}.

Definition set_cache (f : shortIDCache -> shortIDCache) (fr : frame) :=
  {| cache := f (cache fr); transforms := transforms fr;
     monitoringInfo := monitoringInfo fr; payloads := payloads fr |}.

Definition set_transforms
    (f : gmap string fnpb.Metrics_PTransform -> gmap string fnpb.Metrics_PTransform)
    (fr : frame) :=
  {| cache := cache fr; transforms := f (transforms fr);
     monitoringInfo := monitoringInfo fr; payloads := payloads fr |}.

Definition set_monitoringInfo
    (f : list ppb.MonitoringInfo -> list ppb.MonitoringInfo) (fr : frame) :=
  {| cache := cache fr; transforms := transforms fr;
     monitoringInfo := f (monitoringInfo fr); payloads := payloads fr |}.

Definition set_payloads
    (f : gmap string (list byte) -> gmap string (list byte)) (fr : frame) :=
  {| cache := cache fr; transforms := transforms fr;
     monitoringInfo := monitoringInfo fr; payloads := f (payloads fr) |}.

(** A call on [defaultShortIDCache] from inside [monitoring]. *)
Definition onDefaultCache {A} (m : M shortIDCache A) : M frame A :=
  fun fr => let '(r, c) := m (cache fr) in (r, set_cache (fun _ => c) fr).

(** [&fnpb.Metrics_PTransform{}] *)
Definition newPTransform : fnpb.Metrics_PTransform :=
  {| fnpb.ProcessedElements := None; fnpb.User := [] |}.

(** Returns the entry of [l.Transform()], created when missing; the
    pointer is the key of the entry. *)
Definition getTransform (l : metrics.Labels) : M frame string :=
  let* fr := get in
  match transforms fr !! metrics.Transform l with
  | Some _ => ret (metrics.Transform l)
  | None =>
      let* _ := modify (set_transforms (insert (metrics.Transform l) newPTransform)) in
      ret (metrics.Transform l)
  end.

Definition toName (l : metrics.Labels) : fnpb.Metrics_User_MetricName :=
  {| fnpb.Name := metrics.Name l; fnpb.Namespace := metrics.Namespace l |}.

(** [pb.User = append(pb.User, u)] through the pointer [pb]. *)
Definition appendUser (pb : string) (u : fnpb.Metrics_User) : M frame unit :=
  modify (set_transforms
            (alter (fun p => {| fnpb.ProcessedElements := fnpb.ProcessedElements p;
                                fnpb.User := fnpb.User p ++ [u] |}) pb)).

(** The first extractor: the legacy style metrics. *)
Definition legacyExtractor `{TimeAPI} : metrics.Extractor frame :=
  {| metrics.SumInt64 := fun l v =>
       let* pb := getTransform l in
       appendUser pb
         {| fnpb.MetricName := toName l;
            fnpb.Data := fnpb.CounterData {| fnpb.Value := v |} |};
     metrics.DistributionInt64 := fun l count sum min max =>
       let* pb := getTransform l in
       appendUser pb
         {| fnpb.MetricName := toName l;
            fnpb.Data := fnpb.DistributionData
                           {| fnpb.Count := count; fnpb.Sum := sum;
                              fnpb.Min := min; fnpb.Max := max |} |};
     metrics.GaugeInt64 := fun l v t =>
       match TimestampProto t with
       | inr err => panic (PanicError err)
       | inl ts =>
           let* pb := getTransform l in
           appendUser pb
             {| fnpb.MetricName := toName l;
                fnpb.Data := fnpb.GaugeData
                               {| fnpb.GaugeValue := v; fnpb.Timestamp := ts |} |}
       end |}.

(** The body shared by the three callbacks of the second extractor, after
    the payload is encoded:
    [payloads[getShortID(l, urn)] = payload] and the [append] of the full
    record. *)
Definition report (l : metrics.Labels) (urn : mUrn) (typ : mType)
    (payload : list byte) : M frame unit :=
  let* s := onDefaultCache (getShortID l urn) in
  let* _ := modify (set_payloads (insert s payload)) in
  let* u := liftO (index sUrns urn) in
  let* ty := liftO (index sTypes typ) in
  modify (set_monitoringInfo
            (fun infos => infos ++
               [{| ppb.Urn := u; ppb.Type_ := ty;
                   ppb.Labels := userLabels l; ppb.Payload := payload |}])).

(** The second extractor: the MonitoringInfo versions. *)
Definition infoExtractor `{TimeAPI} : metrics.Extractor frame :=
  {| metrics.SumInt64 := fun l v =>
       match int64Counter v with
       | (_, Some err) => panic (PanicError err)
       | (payload, None) => report l urnUserSumInt64 typeSumInt64 payload
       end;
     metrics.DistributionInt64 := fun l count sum min max =>
       match int64Distribution count sum min max with
       | (_, Some err) => panic (PanicError err)
       | (payload, None) => report l urnUserDistInt64 typeDistInt64 payload
       end;
     metrics.GaugeInt64 := fun l v t =>
       match int64Latest t v with
       | (_, Some err) => panic (PanicError err)
       | (payload, None) => report l urnUserLatestMsInt64 typeLatestMsInt64 payload
       end |}.

(** [if snapshot, ok := p.Progress(); ok { ... }] *)
Definition mergeProgress (snapshot : exec.ProgressReportSnapshot) : M frame unit :=
  let* _ := modify (set_transforms
    (insert (exec.ID snapshot)
       {| fnpb.ProcessedElements :=
            Some {| fnpb.Measured :=
              Some {| fnpb.OutputElementCounts :=
                        {[ exec.Name snapshot := exec.Count snapshot ]} |} |};
          fnpb.User := [] |})) in
  match int64Counter (exec.Count snapshot) with
  | (payload, None) =>
      let* u := liftO (index sUrns urnElementCount) in
      let* ty := liftO (index sTypes typeSumInt64) in
      modify (set_monitoringInfo
                (fun infos => infos ++
                   [{| ppb.Urn := u; ppb.Type_ := ty;
                       ppb.Labels := {[ "PCOLLECTION" := exec.PID snapshot ]};
                       ppb.Payload := payload |}]))
  | (_, Some _) => ret tt
  end.

Definition snapshotResult : Type :=
  option fnpb.Metrics * list ppb.MonitoringInfo * option (gmap string (list byte)).

Definition monitoring_body `{TimeAPI} (store : metrics.Store)
    (progress : option exec.ProgressReportSnapshot) : M frame snapshotResult :=
  let* _ := metrics.ExtractFrom legacyExtractor store in
  let* _ := metrics.ExtractFrom infoExtractor store in
  let* _ := match progress with
            | Some snapshot => mergeProgress snapshot
            | None => ret tt
            end in
  let* fr := get in
  ret (Some {| fnpb.Ptransforms := transforms fr |},
       monitoringInfo fr,
       Some (payloads fr)).

(** [monitoring(p)], as a computation over [defaultShortIDCache]. *)
Definition monitoring `{TimeAPI} (p : exec.Plan) : M shortIDCache snapshotResult :=
  fun c =>
    match exec.Store p with
    | None => (Ok (None, [], None), c)
    | Some store =>
        let '(r, fr) := monitoring_body store (exec.Progress p) (enter c) in
        (r, cache fr)
    end.

(** ** Sequences of resolutions and reachable caches *)

(** A sequence of [getShortID] calls on one cache, each with its outcome.
    A call that panics leaves the cache as the panic found it, and the
    sequence goes on, as it does when the caller recovers. *)
Fixpoint resolveAll (reqs : list shortKey) (c : shortIDCache)
    : list (outcome string) * shortIDCache :=
  match reqs with
  | [] => ([], c)
  | k :: rest =>
      let '(r, c1) := getShortID (Labels k) (Urn k) c in
      let '(rs, c2) := resolveAll rest c1 in
      (r :: rs, c2)
  end.

(** The caches a process can hold: the one [init] creates, and those that
    [getShortID] and [monitoring] leave behind. *)
Inductive reachable `{TimeAPI} : shortIDCache -> Prop :=
| reachable_new : reachable newShortIDCache
| reachable_getShortID l urn c :
    reachable c -> reachable (getShortID l urn c).2
| reachable_monitoring p c :
    reachable c -> reachable (monitoring p c).2.

(** The descriptor [getShortID] stores for an identity, when building it
    does not panic. *)
Definition descriptor (l : metrics.Labels) (urn : mUrn) : outcome ppb.MonitoringInfo :=
  match index sUrns urn with
  | Panic p => Panic p
  | Ok u =>
      match urnToType urn with
      | Panic p => Panic p
      | Ok t =>
          match index sTypes t with
          | Panic p => Panic p
          | Ok ty =>
              Ok {| ppb.Urn := u; ppb.Type_ := ty;
                    ppb.Labels := userLabels l; ppb.Payload := [] |}
          end
      end
  end.

(** The cache after the first two statements of a miss: the counter is
    bumped and the identity is bound to the new token. *)
Definition bound (l : metrics.Labels) (urn : mUrn) (c : shortIDCache) : shortIDCache :=
  let id := wrap64 (lastShortID c + 1)%Z in
  {| labels2ShortIds :=
       <[ {| Labels := l; Urn := urn |} := strconv.FormatInt id 36 ]> (labels2ShortIds c);
     shortIds2Infos := shortIds2Infos c;
     lastShortID := id |}.

(** What the short ids of a cache look like as long as the counter has
    not wrapped: the counter is a non-negative [int64], every token is the
    base-36 numeral of a value the counter has already taken, and no token
    is bound to two identities. *)
Record tokens_inv (c : shortIDCache) : Prop := {
  inv_last : (0 <= lastShortID c < 2 ^ 63)%Z;
  inv_token : forall k s,
    labels2ShortIds c !! k = Some s ->
    exists i, (1 <= i <= lastShortID c)%Z /\ s = strconv.FormatInt i 36;
  inv_inj : forall k1 k2 s,
    labels2ShortIds c !! k1 = Some s -> labels2ShortIds c !! k2 = Some s ->
    k1 = k2
}.

(** A cache is well formed when every identity with a supported URN that
    is bound to a token has a descriptor under that token, and every
    descriptor is fully populated: it is the one [getShortID] builds for
    some identity. *)
Definition populated (info : ppb.MonitoringInfo) : Prop :=
  exists l urn, descriptor l urn = Ok info.

Record cache_wf (c : shortIDCache) : Prop := {
  wf_described : forall k s,
    labels2ShortIds c !! k = Some s -> supported (Urn k) ->
    is_Some (shortIds2Infos c !! s);
  wf_populated : forall s info,
    shortIds2Infos c !! s = Some info -> populated info
}.

(** Two frames that agree outside [transforms]. *)
Definition same_report (fr fr' : frame) : Prop :=
  cache fr' = cache fr /\ monitoringInfo fr' = monitoringInfo fr
  /\ payloads fr' = payloads fr.

(** The frames of a pass started on a well-formed cache. *)
Definition payloads_described (fr : frame) : Prop :=
  cache_wf (cache fr)
  /\ forall s, is_Some (payloads fr !! s) -> is_Some (shortIds2Infos (cache fr) !! s).

(** ** The progress merge, as a function of the result without it *)

Definition progressEntry (snapshot : exec.ProgressReportSnapshot) : fnpb.Metrics_PTransform :=
  {| fnpb.ProcessedElements :=
       Some {| fnpb.Measured :=
         Some {| fnpb.OutputElementCounts :=
                   {[ exec.Name snapshot := exec.Count snapshot ]} |} |};
     fnpb.User := [] |}.

Definition progressInfo (snapshot : exec.ProgressReportSnapshot) : ppb.MonitoringInfo :=
  {| ppb.Urn := "beam:metric:element_count:v1";
     ppb.Type_ := "beam:metrics:sum_int64:v1";
     ppb.Labels := {[ "PCOLLECTION" := exec.PID snapshot ]};
     ppb.Payload := coder.varint (exec.Count snapshot) |}.

Definition withProgress (snapshot : exec.ProgressReportSnapshot)
    (r : snapshotResult) : snapshotResult :=
  let '(tree, infos, pl) := r in
  (option_map
     (fun m => {| fnpb.Ptransforms :=
                    <[exec.ID snapshot := progressEntry snapshot]> (fnpb.Ptransforms m) |})
     tree,
   infos ++ [progressInfo snapshot],
   pl).

(** The frame after the optional progress merge. *)
Definition merged (progress : option exec.ProgressReportSnapshot) (fr : frame) : frame :=
  match progress with
  | Some snapshot =>
      set_monitoringInfo (fun infos => infos ++ [progressInfo snapshot])
        (set_transforms (insert (exec.ID snapshot) (progressEntry snapshot)) fr)
  | None => fr
  end.

Definition returned (fr : frame) : snapshotResult :=
  (Some {| fnpb.Ptransforms := transforms fr |}, monitoringInfo fr, Some (payloads fr)).

(** [processedElements[name]] of a transform of the legacy tree. *)
Definition elementCount (m : fnpb.Metrics) (transform name : string) : option Z :=
  match fnpb.Ptransforms m !! transform with
  | Some pt =>
      match fnpb.ProcessedElements pt with
      | Some pe =>
          match fnpb.Measured pe with
          | Some me => fnpb.OutputElementCounts me !! name
          | None => None
          end
      | None => None
      end
  | None => None
  end.

(** A result whose three outputs are absent or empty. *)
Definition allEmpty (r : snapshotResult) : Prop :=
  match r.1.1 with None => True | Some m => fnpb.Ptransforms m = ∅ end
  /\ r.1.2 = []
  /\ match r.2 with None => True | Some pl => pl = ∅ end.

(** ** Reading tokens back *)

(** Used to tell tokens apart; the harness itself never parses a
    token. *)

(** The value of a digit character: its position in [digits]. *)
Fixpoint position (c : ascii) (s : string) (i : N) : N :=
  match s with
  | EmptyString => i
  | String c' s' => if Ascii.eqb c c' then i else position c s' (N.succ i)
  end.

Definition digitVal (c : ascii) : N := position c strconv.digits 0.

(** Reading a digit string, most significant digit first. *)
Fixpoint readDigits (b : N) (s : string) (acc : N) : N :=
  match s with
  | EmptyString => acc
  | String c s' => readDigits b s' (acc * b + digitVal c)%N
  end.


(** ** Sample inputs *)

(** An instance of the time conversions for closed examples: instants
    convert field by field, and the milliseconds are those of the whole
    seconds. *)
Definition sampleTimeAPI : TimeAPI :=
  {| TimestampProto t :=
       inl {| ptypes.Seconds := time.Unix t; ptypes.Nanos := time.Nanosecond t |};
     FromTime_Milliseconds t := (time.Unix t * 1000)%Z |}.

Definition labels_t1_ns_n : metrics.Labels :=
  {| metrics.transform := "t1"; metrics.namespace := "ns"; metrics.name := "n" |}.

Definition labels_pc1_ns_n : metrics.Labels :=
  {| metrics.transform := "pc1"; metrics.namespace := "ns"; metrics.name := "n" |}.

Definition snapshot_pc1 : exec.ProgressReportSnapshot :=
  {| exec.ID := "pc1"; exec.Name := "pc1"; exec.PID := "pc1"; exec.Count := 42 |}.

Definition sample_requests : list shortKey :=
  [ {| Labels := labels_t1_ns_n; Urn := urnUserSumInt64 |};
    {| Labels := labels_t1_ns_n; Urn := urnUserDistInt64 |};
    {| Labels := labels_pc1_ns_n; Urn := urnUserSumInt64 |};
    {| Labels := labels_t1_ns_n; Urn := urnUserSumInt64 |} ].

Definition sample_plan : exec.Plan :=
  {| exec.Store :=
       Some [ (labels_t1_ns_n, metrics.Counter 7);
              (labels_t1_ns_n, metrics.Distribution 3 30 5 15);
              (labels_pc1_ns_n, metrics.Gauge 9 {| time.Unix := 1; time.Nanosecond := 0 |}) ];
     exec.Progress := Some snapshot_pc1 |}.

(** The progress merge as the specification words it, for the snapshot
    [{id: pc1, name: pc1, count: 42}]: the entry of the active transform
    gains the element count, the user entries recorded under that
    transform stay, and the record list gains one element-count record
    labelled with the collection. *)
Definition progress_merge_claim (api : TimeAPI) (store : metrics.Store)
    (c : shortIDCache) : Prop :=
  forall m infos pl c1 m' infos' pl' c2,
    monitoring {| exec.Store := Some store; exec.Progress := None |} c
      = (Ok (Some m, infos, pl), c1) ->
    monitoring {| exec.Store := Some store; exec.Progress := Some snapshot_pc1 |} c
      = (Ok (Some m', infos', pl'), c2) ->
    elementCount m' "pc1" "pc1" = Some 42%Z
    /\ (forall pt, fnpb.Ptransforms m !! "pc1" = Some pt ->
          exists pt', fnpb.Ptransforms m' !! "pc1" = Some pt'
                      /\ fnpb.User pt' = fnpb.User pt)
    /\ (exists r, infos' = infos ++ [r]
                  /\ ppb.Urn r = "beam:metric:element_count:v1"
                  /\ ppb.Labels r = {[ "PCOLLECTION" := "pc1" ]}).


(** ** Numbered caches *)

(** A cache whose counter has not wrapped since the process started: the
    counter is the number of bound identities, the tokens in use are
    exactly the base-36 numerals of 1 up to the counter, descriptors sit
    under such tokens only, and the descriptor under the token of an
    identity is the one built for that identity. *)
Record numbered (c : shortIDCache) : Prop := {
  num_last : (0 <= lastShortID c < 2 ^ 63)%Z;
  num_size : lastShortID c = Z.of_nat (size (labels2ShortIds c));
  num_token : forall k s,
    labels2ShortIds c !! k = Some s ->
    exists i, (1 <= i <= lastShortID c)%Z /\ s = strconv.FormatInt i 36;
  num_all : forall i,
    (1 <= i <= lastShortID c)%Z ->
    exists k, labels2ShortIds c !! k = Some (strconv.FormatInt i 36);
  num_infos : forall s info,
    shortIds2Infos c !! s = Some info ->
    exists i, (1 <= i <= lastShortID c)%Z /\ s = strconv.FormatInt i 36;
  num_desc : forall k s info,
    labels2ShortIds c !! k = Some s ->
    descriptor (Labels k) (Urn k) = Ok info ->
    shortIds2Infos c !! s = Some info
}.

(** ** What one pass resolves and records *)

(** The URN and wire type under which the second extractor reports a
    cell, the payload it encodes for it and the identity it resolves. *)
Definition urnOf (c : metrics.cell) : mUrn :=
  match c with
  | metrics.Counter _ => urnUserSumInt64
  | metrics.Distribution _ _ _ _ => urnUserDistInt64
  | metrics.Gauge _ _ => urnUserLatestMsInt64
  end.

Definition typeOf (c : metrics.cell) : mType :=
  match c with
  | metrics.Counter _ => typeSumInt64
  | metrics.Distribution _ _ _ _ => typeDistInt64
  | metrics.Gauge _ _ => typeLatestMsInt64
  end.

Definition payloadOf `{TimeAPI} (c : metrics.cell) : list byte :=
  match c with
  | metrics.Counter v => (int64Counter v).1
  | metrics.Distribution count sum min max => (int64Distribution count sum min max).1
  | metrics.Gauge v t => (int64Latest t v).1
  end.

Definition keyOf (lc : metrics.Labels * metrics.cell) : shortKey :=
  {| Labels := lc.1; Urn := urnOf lc.2 |}.

Definition orEmpty (o : outcome string) : string :=
  match o with Ok s => s | Panic _ => "" end.

(** The full record appended for a cell. *)
Definition recordOf `{TimeAPI} (lc : metrics.Labels * metrics.cell) : ppb.MonitoringInfo :=
  {| ppb.Urn := orEmpty (index sUrns (urnOf lc.2));
     ppb.Type_ := orEmpty (index sTypes (typeOf lc.2));
     ppb.Labels := userLabels lc.1;
     ppb.Payload := payloadOf lc.2 |}.

(** The token a cache holds for an identity. *)
Definition tokenOf (c : shortIDCache) (k : shortKey) : string :=
  default "" (labels2ShortIds c !! k).

(** The payload map of a pass, read off the cache the pass leaves. *)
Definition payloadsOf `{TimeAPI} (c : shortIDCache) (store : metrics.Store)
    (pl : gmap string (list byte)) : gmap string (list byte) :=
  foldl (fun m lc => <[tokenOf c (keyOf lc) := payloadOf lc.2]> m) pl store.

(** The legacy entry of a cell, or the error of converting its
    timestamp. *)
Definition userOf `{TimeAPI} (lc : metrics.Labels * metrics.cell)
    : fnpb.Metrics_User + error :=
  match lc.2 with
  | metrics.Counter v =>
      inl {| fnpb.MetricName := toName lc.1;
             fnpb.Data := fnpb.CounterData {| fnpb.Value := v |} |}
  | metrics.Distribution count sum min max =>
      inl {| fnpb.MetricName := toName lc.1;
             fnpb.Data := fnpb.DistributionData
                            {| fnpb.Count := count; fnpb.Sum := sum;
                               fnpb.Min := min; fnpb.Max := max |} |}
  | metrics.Gauge v t =>
      match TimestampProto t with
      | inl ts =>
          inl {| fnpb.MetricName := toName lc.1;
                 fnpb.Data := fnpb.GaugeData
                                {| fnpb.GaugeValue := v; fnpb.Timestamp := ts |} |}
      | inr err => inr err
      end
  end.

(** The first timestamp error an extraction of the store meets. *)
Fixpoint firstTimestampError `{TimeAPI} (store : metrics.Store) : option error :=
  match store with
  | [] => None
  | lc :: rest =>
      match userOf lc with
      | inr err => Some err
      | inl _ => firstTimestampError rest
      end
  end.

(** The legacy entries of the cells of one transform, in visiting
    order. *)
Fixpoint usersAt `{TimeAPI} (t : string) (store : metrics.Store) : list fnpb.Metrics_User :=
  match store with
  | [] => []
  | lc :: rest =>
      match userOf lc with
      | inl u =>
          if decide (metrics.Transform lc.1 = t) then u :: usersAt t rest
          else usersAt t rest
      | inr _ => usersAt t rest
      end
  end.

(** [getTransform] followed by the append, on the map itself. *)
Definition addUser (t : string) (u : fnpb.Metrics_User)
    (T : gmap string fnpb.Metrics_PTransform) : gmap string fnpb.Metrics_PTransform :=
  alter (fun p => {| fnpb.ProcessedElements := fnpb.ProcessedElements p;
                     fnpb.User := fnpb.User p ++ [u] |}) t
    (match T !! t with
     | Some _ => T
     | None => <[t := newPTransform]> T
     end).

Fixpoint legacyTree `{TimeAPI} (store : metrics.Store)
    (T : gmap string fnpb.Metrics_PTransform) : gmap string fnpb.Metrics_PTransform :=
  match store with
  | [] => T
  | lc :: rest =>
      match userOf lc with
      | inl u => legacyTree rest (addUser (metrics.Transform lc.1) u T)
      | inr _ => T
      end
  end.

Definition sample_unsupported : mUrn := 19%N.

Definition sample_more_requests : list shortKey :=
  [ {| Labels := labels_pc1_ns_n; Urn := urnUserLatestMsInt64 |};
    {| Labels := labels_t1_ns_n; Urn := urnUserDistInt64 |} ].

(** The frame after the second extractor has visited a cell. *)
Definition stepInfo `{TimeAPI} (lc : metrics.Labels * metrics.cell) (fr : frame) : frame :=
  let c' := (getShortID lc.1 (urnOf lc.2) (cache fr)).2 in
  {| cache := c';
     transforms := transforms fr;
     monitoringInfo := monitoringInfo fr ++ [recordOf lc];
     payloads := <[tokenOf c' (keyOf lc) := payloadOf lc.2]> (payloads fr) |}.

(** The records and the legacy tree with the optional progress merged. *)
Definition progressRecords (progress : option exec.ProgressReportSnapshot)
    : list ppb.MonitoringInfo :=
  match progress with
  | Some snapshot => [progressInfo snapshot]
  | None => []
  end.

Definition progressTree (progress : option exec.ProgressReportSnapshot)
    (T : gmap string fnpb.Metrics_PTransform) : gmap string fnpb.Metrics_PTransform :=
  match progress with
  | Some snapshot => <[exec.ID snapshot := progressEntry snapshot]> T
  | None => T
  end.

(** The entry the first extractor leaves for a transform with the given
    user entries. *)
Definition entryOf (us : list fnpb.Metrics_User) : option fnpb.Metrics_PTransform :=
  match us with
  | [] => None
  | _ => Some {| fnpb.ProcessedElements := None; fnpb.User := us |}
  end.

Definition sample_store : metrics.Store :=
  [ (labels_t1_ns_n, metrics.Counter 7);
    (labels_pc1_ns_n, metrics.Gauge 9 {| time.Unix := 1; time.Nanosecond := 0 |}) ].

(** An instance of the time conversions that rejects instants before the
    epoch. *)
Definition strictTimeAPI : TimeAPI :=
  {| TimestampProto t :=
       if (time.Unix t <? 0)%Z then inr "timestamp: before epoch"
       else inl {| ptypes.Seconds := time.Unix t; ptypes.Nanos := time.Nanosecond t |};
     FromTime_Milliseconds t := (time.Unix t * 1000)%Z |}.

Definition sample_bad_store : metrics.Store :=
  [ (labels_t1_ns_n, metrics.Counter 7);
    (labels_pc1_ns_n, metrics.Gauge 9 {| time.Unix := -1; time.Nanosecond := 0 |});
    (labels_t1_ns_n, metrics.Distribution 3 30 5 15) ].

(** * Properties *)

(** ** Registry *)

Module RegistryFacts.

Local Open Scope N_scope.

Lemma sUrns_length : length sUrns = 19%nat.
Proof. reflexivity. Qed.

Lemma sTypes_length : length sTypes = 13%nat.
Proof. reflexivity. Qed.

(** Case analysis on a natural number below a literal bound. *)
Ltac below_cases u H :=
  let p := fresh "p" in
  destruct u as [|p]; [ | repeat (destruct p as [p|p|]; try (exfalso; lia)) ].

(** Every supported URN has a wire type, and the wire type indexes
    [sTypes]. *)
Lemma urnToType_supported (u : mUrn) :
  supported u -> exists t, urnToType u = Ok t /\ (N.to_nat t < length sTypes)%nat.
Proof.
  unfold supported. rewrite sUrns_length. intros H.
  below_cases u H; eexists; (split; [reflexivity | apply Nat.ltb_lt; reflexivity]).
Qed.

Lemma index_ge (s : list string) (i : N) :
  (length s <= N.to_nat i)%nat -> index s i = Panic (IndexOutOfRange i (length s)).
Proof.
  intros H. unfold index. by rewrite lookup_ge_None_2.
Qed.

Lemma index_lt (s : list string) (i : N) :
  (N.to_nat i < length s)%nat -> exists x, index s i = Ok x /\ s !! N.to_nat i = Some x.
Proof.
  intros H. unfold index.
  destruct (lookup_lt_is_Some_2 s (N.to_nat i) H) as [x Hx].
  rewrite Hx. eauto.
Qed.

(** Outside the declared constants every [case] fails and the [default:]
    arm indexes [sUrns] out of range. *)
Lemma urnToType_unsupported (u : mUrn) :
  ~ supported u -> urnToType u = Panic (IndexOutOfRange u (length sUrns)).
Proof.
  unfold supported. rewrite sUrns_length. intros H.
  change (N.of_nat 19) with 19 in H.
  assert (Hk : forall k, (k <? 19) = true -> (u =? k) = false).
  { intros k Hk. apply N.eqb_neq. apply N.ltb_lt in Hk. lia. }
  unfold urnToType, oneOf. cbn [existsb].
  rewrite !Hk by reflexivity.
  cbn [orb]. unfold urnToType_default.
  rewrite index_ge; [reflexivity | rewrite sUrns_length; lia].
Qed.

(** The descriptor type of a supported URN is unique: [urnToType] is a
    function. *)
Lemma urnToType_functional (u : mUrn) (t1 t2 : mType) :
  urnToType u = Ok t1 -> urnToType u = Ok t2 -> t1 = t2.
Proof. congruence. Qed.

(** The string of the [default:] arm is never the panic value: a declared
    URN returns, and for any other value indexing [sUrns] fails first. *)
Lemma urnToType_message_not_built (u : mUrn) (msg : string) :
  urnToType u <> Panic (PanicString msg).
Proof.
  destruct (N.lt_ge_cases u (N.of_nat (length sUrns))) as [Hs | Hn].
  - destruct (urnToType_supported u Hs) as (t & -> & _). discriminate.
  - rewrite urnToType_unsupported; [discriminate |].
    unfold supported. lia.
Qed.



(** C6 (code evaluated where the claim fails).  The bottom-N int64 URN is
    given the wire type of a sum counter, which is not the bottom-N int64
    wire type. *)
Theorem urnToType_bottomN_int64_is_sum :
  urnToType urnUserBottomNInt64 = Ok typeSumInt64
  /\ urnToType urnUserBottomNInt64 <> Ok typeBottomNInt64
  /\ index sTypes typeSumInt64 = Ok "beam:metrics:sum_int64:v1"
  /\ index sTypes typeBottomNInt64 = Ok "beam:metrics:bottom_n_int64:v1"
  /\ urnToType urnUserBottomNFloat64 = Ok typeBottomNFloat64
  /\ urnToType urnUserTopNInt64 = Ok typeTopNInt64.
Proof. repeat split; try reflexivity. discriminate. Qed.

End RegistryFacts.

(** ** Payload encoders *)

Module CodecFacts.

Import coder.

Local Open Scope N_scope.

(** A non-zero rest after one group means the value had more than seven
    bits, and the rest has seven bits fewer. *)
Lemma shiftr7_log2 (v : N) :
  N.shiftr v 7 <> 0 -> N.log2 (N.shiftr v 7) = N.log2 v - 7 /\ 7 <= N.log2 v.
Proof.
  intros Hne. split; [apply N.log2_shiftr |].
  destruct (N.le_gt_cases 7 (N.log2 v)) as [Hle | Hlt]; [exact Hle | exfalso].
  apply Hne. apply N.shiftr_eq_0. destruct (N.eq_dec v 0) as [-> | Hv]; [reflexivity |].
  exact Hlt.
Qed.

Lemma EncodeVarUint64_loop_fuel (f1 f2 : nat) (v : N) :
  (N.to_nat (N.log2 v) <= f1)%nat -> (N.to_nat (N.log2 v) <= f2)%nat ->
  EncodeVarUint64_loop f1 v = EncodeVarUint64_loop f2 v.
Proof.
  revert f2 v. induction f1 as [|f1 IH]; intros f2 v H1 H2.
  - destruct f2 as [|f2]; [reflexivity |]. cbn.
    destruct (N.eqb_spec (N.shiftr v 7) 0) as [_ | Hne]; [reflexivity |].
    apply shiftr7_log2 in Hne. lia.
  - cbn. destruct (N.eqb_spec (N.shiftr v 7) 0) as [He | Hne].
    + destruct f2; cbn; rewrite He; reflexivity.
    + pose proof (shiftr7_log2 v Hne) as [Hl Hge].
      destruct f2 as [|f2]; [lia |]. cbn.
      destruct (N.eqb_spec (N.shiftr v 7) 0) as [? | _]; [contradiction |].
      f_equal. apply IH; lia.
Qed.

(** The loop of [EncodeVarUint64], one iteration unfolded: the fuel of the
    definition never runs out. *)
Lemma varint_unfold (v : N) :
  varuint v =
    if N.shiftr v 7 =? 0 then [N.land v 127]
    else N.lor (N.land v 127) 128 :: varuint (N.shiftr v 7).
Proof.
  unfold varuint.
  destruct (N.eqb_spec (N.shiftr v 7) 0) as [He | Hne].
  - destruct (N.to_nat (N.log2 v)); cbn; rewrite He; reflexivity.
  - pose proof (shiftr7_log2 v Hne) as [Hl Hge].
    destruct (N.to_nat (N.log2 v)) as [|f] eqn:Hf; [lia |]. cbn.
    destruct (N.eqb_spec (N.shiftr v 7) 0) as [? | _]; [contradiction |].
    f_equal. apply EncodeVarUint64_loop_fuel; lia.
Qed.

Lemma land127_lt (v : N) : N.land v 127 < 128.
Proof.
  change 127 with (N.ones 7). rewrite N.land_ones.
  apply N.mod_lt. discriminate.
Qed.

Lemma lor128_lt (b : N) : b < 128 -> N.lor b 128 < 256.
Proof.
  intros H.
  destruct (N.eq_dec (N.lor b 128) 0) as [-> | Hne]; [reflexivity |].
  apply N.log2_lt_pow2 with (b := 8); [lia |].
  rewrite N.log2_lor.
  assert (N.log2 b < 8).
  { destruct (N.eq_dec b 0) as [-> | Hb]; [reflexivity |].
    apply N.log2_lt_pow2; [lia |]. change (2 ^ 8) with 256. lia. }
  change (N.log2 128) with 7. lia.
Qed.

(** Every element of an encoding is a byte. *)
Lemma EncodeVarUint64_loop_bytes (fuel : nat) (v : N) :
  Forall (fun b => b < 256) (EncodeVarUint64_loop fuel v).
Proof.
  revert v. induction fuel as [|fuel IH]; intros v; cbn;
    pose proof (land127_lt v);
    destruct (N.shiftr v 7 =? 0); repeat constructor; try lia.
  - by apply lor128_lt.
  - exact (IH _).
Qed.

Lemma varint_bytes (v : Z) : Forall (fun b => b < 256) (varint v).
Proof. apply EncodeVarUint64_loop_bytes. Qed.

(** Writing to a [bytes.Buffer] appends and does not fail. *)
Lemma EncodeVarInt_Buffer (v : Z) (buf : bytes.Buffer) :
  EncodeVarInt v buf = ({| bytes.Bytes := bytes.Bytes buf ++ varint v |}, None).
Proof. reflexivity. Qed.

Lemma int64Counter_eq (v : Z) : int64Counter v = (varint v, None).
Proof. reflexivity. Qed.

Lemma int64Distribution_eq (count sum min max : Z) :
  int64Distribution count sum min max =
    (varint count ++ varint sum ++ varint min ++ varint max, None).
Proof.
  unfold int64Distribution. rewrite !EncodeVarInt_Buffer. cbn.
  by rewrite <- !app_assoc.
Qed.

Lemma int64Latest_eq `{TimeAPI} (t : time.Time) (v : Z) :
  int64Latest t v = (varint (FromTime_Milliseconds t) ++ varint v, None).
Proof. reflexivity. Qed.

(** C3.  Each encoder returns the concatenation of the varints of its
    fields in the fixed order: count, sum, min, max for a distribution
    (so [encodeDistribution(3, 30, 5, 15)] is the four one-byte varints
    3, 30, 5, 15), and the epoch milliseconds followed by the value for a
    latest-value. *)
Theorem encoders_concatenate_varints `{TimeAPI} :
  (forall count sum min max : Z,
      (int64Distribution count sum min max).1 =
        varint count ++ varint sum ++ varint min ++ varint max)
  /\ (int64Distribution 3 30 5 15).1 = varint 3 ++ varint 30 ++ varint 5 ++ varint 15
  /\ (int64Distribution 3 30 5 15).1 = [3; 30; 5; 15]
  /\ (forall (t : time.Time) (v : Z),
         (int64Latest t v).1 = varint (FromTime_Milliseconds t) ++ varint v)
  /\ (forall v : Z, (int64Counter v).1 = varint v).
Proof.
  repeat split; intros; try reflexivity.
  by rewrite int64Distribution_eq.
Qed.

End CodecFacts.

(** ** Short-id tokens *)

Module StrconvFacts.

Import strconv.

Local Open Scope N_scope.

Lemma append_assoc (s1 s2 s3 : string) :
  (s1 +:+ s2) +:+ s3 = s1 +:+ (s2 +:+ s3).
Proof.
  induction s1 as [|c s1 IH]; [reflexivity |].
  change (String c ((s1 +:+ s2) +:+ s3) = String c (s1 +:+ (s2 +:+ s3))).
  by rewrite IH.
Qed.

Lemma digitVal_digit (d : N) : d < 36 -> digitVal (digit d) = d.
Proof.
  intros H.
  assert (Hall : forallb (fun n => digitVal (digit (N.of_nat n)) =? N.of_nat n)
                   (seq 0 36) = true) by reflexivity.
  rewrite forallb_forall in Hall.
  specialize (Hall (N.to_nat d)).
  rewrite N2Nat.id in Hall. apply N.eqb_eq, Hall.
  apply in_seq. lia.
Qed.

Lemma readDigits_app (b : N) (s1 s2 : string) (acc : N) :
  readDigits b (s1 +:+ s2) acc = readDigits b s2 (readDigits b s1 acc).
Proof.
  revert acc. induction s1 as [|c s1 IH]; intros acc; [reflexivity |].
  change (String c s1 +:+ s2) with (String c (s1 +:+ s2)). cbn.
  apply IH.
Qed.

Lemma formatBits_loop_acc (fuel : nat) (b u : N) (acc : string) :
  formatBits_loop fuel b u acc = formatBits_loop fuel b u "" +:+ acc.
Proof.
  revert u acc. induction fuel as [|fuel IH]; intros u acc; cbn.
  - destruct (b <=? u); reflexivity.
  - destruct (b <=? u); [| reflexivity].
    rewrite (IH _ (String _ acc)), (IH _ (String _ "")).
    rewrite append_assoc. reflexivity.
Qed.

Lemma log2_div_lt (b u : N) :
  2 <= b -> b <= u -> N.log2 (u / b) < N.log2 u.
Proof.
  intros Hb Hu.
  assert (Hq : u / b <= u / 2).
  { apply N.div_le_compat_l. lia. }
  assert (Hh : N.log2 (u / 2) = N.log2 u - 1).
  { rewrite <- N.div2_div, N.div2_spec. apply N.log2_shiftr. }
  assert (1 <= N.log2 u).
  { change 1 with (N.log2 2). apply N.log2_le_mono. lia. }
  pose proof (N.log2_le_mono _ _ Hq). lia.
Qed.

Lemma log2_ge_1 (b u : N) : 2 <= b -> b <= u -> 1 <= N.log2 u.
Proof.
  intros Hb Hu. change 1 with (N.log2 2). apply N.log2_le_mono. lia.
Qed.

Lemma formatBits_loop_fuel (f1 f2 : nat) (b u : N) (acc : string) :
  2 <= b ->
  (N.to_nat (N.log2 u) <= f1)%nat -> (N.to_nat (N.log2 u) <= f2)%nat ->
  formatBits_loop f1 b u acc = formatBits_loop f2 b u acc.
Proof.
  intros Hb. revert f2 u acc.
  induction f1 as [|f1 IH]; intros f2 u acc H1 H2;
    destruct f2 as [|f2]; cbn; try reflexivity;
    destruct (N.leb_spec b u) as [Hle | _]; try reflexivity;
    pose proof (log2_ge_1 b u Hb Hle); try lia.
  pose proof (log2_div_lt b u Hb Hle). apply IH; lia.
Qed.

(** One iteration of the digit loop unfolded: the fuel of the definition
    never runs out. *)
Lemma formatBits_loop_unfold (b u : N) (acc : string) :
  2 <= b ->
  formatBits_loop (N.to_nat (N.log2 u)) b u acc =
    if b <=? u
    then formatBits_loop (N.to_nat (N.log2 (u / b))) b (u / b)
           (String (digit (u - u / b * b)) acc)
    else String (digit u) acc.
Proof.
  intros Hb.
  destruct (N.to_nat (N.log2 u)) as [|f] eqn:Hf; cbn;
    destruct (N.leb_spec b u) as [Hle | _]; try reflexivity;
    pose proof (log2_ge_1 b u Hb Hle); try lia.
  pose proof (log2_div_lt b u Hb Hle).
  apply formatBits_loop_fuel; [exact Hb | lia | lia].
Qed.

Lemma readDigits_one (b : N) (c : ascii) (acc : N) :
  readDigits b (String c "") acc = acc * b + digitVal c.
Proof. reflexivity. Qed.

(** Reading back what the digit loop wrote gives the number. *)
Lemma readDigits_formatBits_loop (fuel : nat) (u : N) :
  (N.to_nat (N.log2 u) <= fuel)%nat ->
  readDigits 36 (formatBits_loop fuel 36 u "") 0 = u.
Proof.
  revert u. induction fuel as [|fuel IH]; intros u Hf; cbn [formatBits_loop];
    destruct (N.leb_spec 36 u) as [Hle | Hlt];
    try (rewrite readDigits_one, digitVal_digit; lia).
  - pose proof (log2_ge_1 36 u ltac:(lia) Hle). lia.
  - pose proof (log2_div_lt 36 u ltac:(lia) Hle).
    rewrite formatBits_loop_acc, readDigits_app, IH by lia.
    pose proof (N.Div0.mul_div_le u 36).
    pose proof (N.mod_lt u 36 ltac:(discriminate)) as Hm.
    rewrite N.Div0.mod_eq in Hm.
    rewrite readDigits_one, digitVal_digit; lia.
Qed.

(** Tokens of distinct non-negative counter values are distinct. *)
Lemma FormatInt_36_inj (i j : Z) :
  (0 <= i < 2 ^ 63)%Z -> (0 <= j < 2 ^ 63)%Z ->
  FormatInt i 36 = FormatInt j 36 -> i = j.
Proof.
  intros Hi Hj Heq.
  unfold FormatInt, formatBits, uint64_of_int64 in Heq.
  rewrite !Z.mod_small in Heq by lia.
  destruct (Z.ltb_spec i 0); [lia |]. destruct (Z.ltb_spec j 0); [lia |].
  apply (f_equal (fun s => readDigits 36 s 0)) in Heq.
  rewrite !readDigits_formatBits_loop in Heq by lia.
  lia.
Qed.

Example FormatInt_samples :
  FormatInt 1 36 = "1" /\ FormatInt 35 36 = "z" /\ FormatInt 36 36 = "10"
  /\ FormatInt (-1297) 36 = "-101" /\ FormatInt 0 36 = "0"
  /\ FormatInt (2 ^ 63 - 1) 36 = "1y2p0ij32e8e7".
Proof. repeat split; vm_compute; reflexivity. Qed.

End StrconvFacts.

(** ** Short-id cache *)

Module CacheFacts.

Import RegistryFacts StrconvFacts.

Local Open Scope Z_scope.

Lemma wrap64_small (z : Z) : - 2 ^ 63 <= z < 2 ^ 63 -> wrap64 z = z.
Proof. intros H. unfold wrap64. rewrite Z.mod_small; lia. Qed.

Lemma wrap64_int64 (z : Z) : int64 (wrap64 z).
Proof.
  unfold int64, wrap64.
  pose proof (Z.mod_pos_bound (z + 2 ^ 63) (2 ^ 64) ltac:(lia)). lia.
Qed.

Lemma getShortID_hit l urn c s :
  labels2ShortIds c !! {| Labels := l; Urn := urn |} = Some s ->
  getShortID l urn c = (Ok s, c).
Proof.
  intros H. unfold getShortID, bind, get. cbn. by rewrite H.
Qed.

Lemma getShortID_miss l urn c :
  labels2ShortIds c !! {| Labels := l; Urn := urn |} = None ->
  getShortID l urn c =
    let s := strconv.FormatInt (wrap64 (lastShortID c + 1)) 36 in
    match descriptor l urn with
    | Ok info => (Ok s, set_shortIds2Infos (insert s info) (bound l urn c))
    | Panic p => (Panic p, bound l urn c)
    end.
Proof.
  intros H. unfold getShortID, bind, get. cbn. rewrite H.
  unfold descriptor, getNextShortID, AddInt64_lastShortID, bind, get, modify,
    ret, liftO. cbn.
  destruct (index sUrns urn); [| reflexivity].
  destruct (urnToType urn); [| reflexivity].
  destruct (index sTypes _); reflexivity.
Qed.

Lemma descriptor_supported l urn :
  supported urn -> exists info, descriptor l urn = Ok info.
Proof.
  intros H. unfold descriptor.
  destruct (index_lt sUrns urn) as (u & -> & _).
  { unfold supported in H. lia. }
  destruct (urnToType_supported urn H) as (t & -> & Ht).
  destruct (index_lt sTypes t Ht) as (ty & -> & _).
  eauto.
Qed.

Lemma descriptor_unsupported l urn :
  ~ supported urn -> descriptor l urn = Panic (IndexOutOfRange urn (length sUrns)).
Proof.
  intros H. unfold descriptor. rewrite index_ge; [reflexivity |].
  unfold supported in H. lia.
Qed.

(** For a supported URN the call returns a token. *)
Lemma getShortID_supported l urn c :
  supported urn -> exists s, (getShortID l urn c).1 = Ok s.
Proof.
  intros H.
  destruct (labels2ShortIds c !! {| Labels := l; Urn := urn |}) as [s|] eqn:Hk.
  - rewrite (getShortID_hit _ _ _ _ Hk). eauto.
  - rewrite (getShortID_miss _ _ _ Hk).
    destruct (descriptor_supported l urn H) as [info ->]. cbn. eauto.
Qed.

(** After a call the identity is bound, to the token the call returned if
    it returned one. *)
Lemma getShortID_binds l urn c :
  exists s, labels2ShortIds (getShortID l urn c).2 !! {| Labels := l; Urn := urn |} = Some s
            /\ forall s', (getShortID l urn c).1 = Ok s' -> s' = s.
Proof.
  destruct (labels2ShortIds c !! {| Labels := l; Urn := urn |}) as [s|] eqn:Hk.
  - rewrite (getShortID_hit _ _ _ _ Hk). cbn. exists s. split; [done | congruence].
  - rewrite (getShortID_miss _ _ _ Hk). cbn zeta.
    exists (strconv.FormatInt (wrap64 (lastShortID c + 1)) 36).
    destruct (descriptor l urn); cbn; rewrite lookup_insert_eq;
      (split; [done | congruence]).
Qed.

(** Bindings are never changed or removed. *)
Lemma getShortID_mono l urn c :
  labels2ShortIds c ⊆ labels2ShortIds (getShortID l urn c).2.
Proof.
  destruct (labels2ShortIds c !! {| Labels := l; Urn := urn |}) as [s|] eqn:Hk.
  - by rewrite (getShortID_hit _ _ _ _ Hk).
  - rewrite (getShortID_miss _ _ _ Hk). cbn zeta.
    destruct (descriptor l urn); cbn; by apply insert_subseteq.
Qed.

(** C1.  A call that returned a token for an identity is repeated by a
    second call on the same identity: it returns the same token and leaves
    the cache, so in particular the identity-to-short-id map, as it
    was. *)
Theorem getShortID_idempotent l urn c s c1 :
  getShortID l urn c = (Ok s, c1) ->
  getShortID l urn c1 = (Ok s, c1)
  /\ labels2ShortIds (getShortID l urn c1).2 = labels2ShortIds c1.
Proof.
  intros H.
  destruct (getShortID_binds l urn c) as (s' & Hb & Hs).
  rewrite H in Hb, Hs. cbn in Hb, Hs.
  rewrite <- (Hs s eq_refl) in Hb.
  rewrite (getShortID_hit _ _ _ _ Hb). done.
Qed.

Lemma getShortID_idempotent_witness :
  getShortID labels_t1_ns_n urnUserSumInt64
    (getShortID labels_t1_ns_n urnUserSumInt64 newShortIDCache).2
  = (Ok "1", (getShortID labels_t1_ns_n urnUserSumInt64 newShortIDCache).2)
  /\ labels2ShortIds
       (getShortID labels_t1_ns_n urnUserSumInt64
          (getShortID labels_t1_ns_n urnUserSumInt64 newShortIDCache).2).2
     = labels2ShortIds (getShortID labels_t1_ns_n urnUserSumInt64 newShortIDCache).2.
Proof.
  apply (getShortID_idempotent labels_t1_ns_n urnUserSumInt64 newShortIDCache).
  vm_compute. reflexivity.
Defined.

(** *** Tokens stay distinct *)

Lemma tokens_inv_new : tokens_inv newShortIDCache.
Proof.
  split; cbn; [lia | |]; intros *; by rewrite lookup_empty.
Qed.

(** One call keeps the invariant as long as the counter can still be
    incremented without wrapping, and moves the counter by at most one. *)
Lemma getShortID_tokens_inv l urn c :
  tokens_inv c -> lastShortID c < 2 ^ 63 - 1 ->
  tokens_inv (getShortID l urn c).2
  /\ lastShortID c <= lastShortID (getShortID l urn c).2 <= lastShortID c + 1.
Proof.
  intros [Hlast Htok Hinj] Hroom.
  destruct (labels2ShortIds c !! {| Labels := l; Urn := urn |}) as [s|] eqn:Hk.
  { rewrite (getShortID_hit _ _ _ _ Hk). cbn. split; [by split | lia]. }
  rewrite (getShortID_miss _ _ _ Hk). cbn zeta.
  assert (Hw : wrap64 (lastShortID c + 1) = lastShortID c + 1)
    by (apply wrap64_small; lia).
  assert (Hb : tokens_inv (bound l urn c)
               /\ lastShortID (bound l urn c) = lastShortID c + 1).
  { split; [| exact Hw]. unfold bound. rewrite Hw. split; cbn.
    - lia.
    - intros k s [[<- <-] | [Hne Hs]]%lookup_insert_Some.
      + exists (lastShortID c + 1). split; [lia | reflexivity].
      + destruct (Htok k s Hs) as (i & Hi & ->). exists i. split; [lia | reflexivity].
    - intros k1 k2 s [[<- <-] | [Hne1 H1]]%lookup_insert_Some
                     [[<- Heq] | [Hne2 H2]]%lookup_insert_Some.
      + reflexivity.
      + exfalso. destruct (Htok _ _ H2) as (i & Hi & Hs).
        apply FormatInt_36_inj in Hs; lia.
      + exfalso. destruct (Htok _ _ H1) as (i & Hi & Hs).
        subst s. apply FormatInt_36_inj in Hs; lia.
      + by eapply Hinj. }
  destruct Hb as [[Hl' Ht' Hi'] Hlast'].
  destruct (descriptor l urn); cbn; (split; [by split | lia]).
Qed.

(** A sequence of calls, short enough for the counter not to wrap. *)
Lemma resolveAll_tokens_inv reqs c :
  tokens_inv c -> lastShortID c + Z.of_nat (length reqs) < 2 ^ 63 ->
  tokens_inv (resolveAll reqs c).2
  /\ labels2ShortIds c ⊆ labels2ShortIds (resolveAll reqs c).2
  /\ forall i k s,
       reqs !! i = Some k -> (resolveAll reqs c).1 !! i = Some (Ok s) ->
       labels2ShortIds (resolveAll reqs c).2 !! k = Some s.
Proof.
  revert c. induction reqs as [|k0 reqs IH]; intros c Hinv Hlen.
  { cbn. split; [done |]. split; [done |]. intros i k s Hi. by destruct i. }
  cbn [length] in Hlen. cbn [resolveAll].
  pose proof (getShortID_tokens_inv (Labels k0) (Urn k0) c Hinv ltac:(lia))
    as [Hinv1 Hlast1].
  pose proof (getShortID_mono (Labels k0) (Urn k0) c) as Hmono1.
  pose proof (getShortID_binds (Labels k0) (Urn k0) c) as (s0 & Hb & Hs0).
  destruct (getShortID (Labels k0) (Urn k0) c) as [r c1] eqn:Hcall.
  cbn in Hinv1, Hlast1, Hmono1, Hb, Hs0.
  specialize (IH c1 Hinv1 ltac:(lia)) as (Hinv2 & Hmono2 & Hres).
  destruct (resolveAll reqs c1) as [rs c2] eqn:Hrest. cbn in *.
  split; [exact Hinv2 |]. split; [by etrans |].
  intros [|i] k s Hi Hr; cbn in Hi, Hr.
  - injection Hi as <-. injection Hr as ->.
    rewrite <- (Hs0 s eq_refl) in Hb.
    destruct k0 as [l0 u0]. cbn in Hb.
    eapply lookup_weaken; [exact Hb | exact Hmono2].
  - by eapply Hres.
Qed.

(** Two identities are different exactly when they differ in the
    transform, the namespace, the name or the URN. *)
Lemma shortKey_differ (k1 k2 : shortKey) :
  k1 <> k2 <->
  metrics.Transform (Labels k1) <> metrics.Transform (Labels k2)
  \/ metrics.Namespace (Labels k1) <> metrics.Namespace (Labels k2)
  \/ metrics.Name (Labels k1) <> metrics.Name (Labels k2)
  \/ Urn k1 <> Urn k2.
Proof.
  destruct k1 as [[t1 n1 m1] u1], k2 as [[t2 n2 m2] u2]. cbn. split.
  - intros Hne.
    destruct (decide (t1 = t2)) as [-> |]; [| tauto].
    destruct (decide (n1 = n2)) as [-> |]; [| tauto].
    destruct (decide (m1 = m2)) as [-> |]; [| tauto].
    destruct (decide (u1 = u2)) as [-> |]; [| tauto].
    by destruct Hne.
  - intros H Heq. injection Heq as -> -> -> ->. tauto.
Qed.

(** C2.  On the cache of a fresh process, after any sequence of
    [getShortID] calls (shorter than the 2^63 calls the [int64] counter
    can number), the identity-to-short-id map is injective, and two calls
    of the sequence made for different identities never returned the same
    token. *)
Theorem short_ids_distinct (reqs : list shortKey) :
  Z.of_nat (length reqs) < 2 ^ 63 ->
  (forall k1 k2 s,
      labels2ShortIds (resolveAll reqs newShortIDCache).2 !! k1 = Some s ->
      labels2ShortIds (resolveAll reqs newShortIDCache).2 !! k2 = Some s ->
      k1 = k2)
  /\ (forall i j k1 k2 s1 s2,
         reqs !! i = Some k1 -> reqs !! j = Some k2 ->
         (resolveAll reqs newShortIDCache).1 !! i = Some (Ok s1) ->
         (resolveAll reqs newShortIDCache).1 !! j = Some (Ok s2) ->
         k1 <> k2 -> s1 <> s2).
Proof.
  intros Hlen.
  destruct (resolveAll_tokens_inv reqs newShortIDCache tokens_inv_new)
    as ([_ _ Hinj] & _ & Hres); [cbn; lia |].
  split; [exact Hinj |].
  intros i j k1 k2 s1 s2 Hi Hj Hr1 Hr2 Hne ->.
  apply Hne. eapply Hinj; eauto.
Qed.

Lemma short_ids_distinct_witness :
  (forall k1 k2 s,
      labels2ShortIds (resolveAll sample_requests newShortIDCache).2 !! k1 = Some s ->
      labels2ShortIds (resolveAll sample_requests newShortIDCache).2 !! k2 = Some s ->
      k1 = k2)
  /\ (forall i j k1 k2 s1 s2,
         sample_requests !! i = Some k1 -> sample_requests !! j = Some k2 ->
         (resolveAll sample_requests newShortIDCache).1 !! i = Some (Ok s1) ->
         (resolveAll sample_requests newShortIDCache).1 !! j = Some (Ok s2) ->
         k1 <> k2 -> s1 <> s2).
Proof.
  apply (short_ids_distinct sample_requests). vm_compute. reflexivity.
Defined.

Example resolveAll_sample :
  (resolveAll sample_requests newShortIDCache).1 = [Ok "1"; Ok "2"; Ok "3"; Ok "1"].
Proof. vm_compute. reflexivity. Qed.

(** *** Descriptors *)

Lemma descriptor_panic_unsupported l urn p :
  descriptor l urn = Panic p -> ~ supported urn.
Proof.
  intros Hp Hs. destruct (descriptor_supported l urn Hs) as [info Hi]. congruence.
Qed.

Lemma cache_wf_new : cache_wf newShortIDCache.
Proof. split; cbn; intros *; by rewrite lookup_empty. Qed.

(** A call never removes a descriptor. *)
Lemma getShortID_infos_mono l urn c s :
  is_Some (shortIds2Infos c !! s) ->
  is_Some (shortIds2Infos (getShortID l urn c).2 !! s).
Proof.
  intros Hs.
  destruct (labels2ShortIds c !! {| Labels := l; Urn := urn |}) as [s0|] eqn:Hk.
  - by rewrite (getShortID_hit _ _ _ _ Hk).
  - rewrite (getShortID_miss _ _ _ Hk). cbn zeta.
    destruct (descriptor l urn); cbn; [| done].
    rewrite lookup_insert. by case_decide.
Qed.

Lemma getShortID_wf l urn c :
  cache_wf c -> cache_wf (getShortID l urn c).2.
Proof.
  intros [Hd Hp].
  destruct (labels2ShortIds c !! {| Labels := l; Urn := urn |}) as [s0|] eqn:Hk.
  { by rewrite (getShortID_hit _ _ _ _ Hk). }
  rewrite (getShortID_miss _ _ _ Hk). cbn zeta.
  destruct (descriptor l urn) as [info | p] eqn:Hdesc; cbn; split; cbn.
  - intros k s [[<- <-] | [Hne Hs]]%lookup_insert_Some Hsup.
    + rewrite lookup_insert_eq. eauto.
    + rewrite lookup_insert. case_decide; [eauto |]. by eapply Hd.
  - intros s info' [[<- <-] | [Hne Hs]]%lookup_insert_Some.
    + by exists l, urn.
    + by eapply Hp.
  - intros k s [[<- <-] | [Hne Hs]]%lookup_insert_Some Hsup.
    + exfalso. by eapply descriptor_panic_unsupported.
    + by eapply Hd.
  - exact Hp.
Qed.

(** The batch lookup returns, for each requested id, what the cache holds
    under it. *)
Lemma shortIdsToInfos_lookup ids c s :
  s ∈ ids -> shortIdsToInfos ids c !! s = Some (shortIds2Infos c !! s).
Proof.
  unfold shortIdsToInfos.
  assert (Hgen : forall m : gmap string (option ppb.MonitoringInfo),
             foldl (fun m s => <[s := shortIds2Infos c !! s]> m) m ids !! s =
               if decide (s ∈ ids) then Some (shortIds2Infos c !! s) else m !! s).
  { induction ids as [|x ids IH]; intros m; cbn.
    - case_decide as Hin; [by apply elem_of_nil in Hin | done].
    - rewrite IH. destruct (decide (s ∈ ids)) as [Hin | Hnin].
      + rewrite decide_True; [done | by right].
      + destruct (decide (s = x)) as [-> | Hne].
        * rewrite decide_True; [| by left]. by rewrite lookup_insert_eq.
        * rewrite decide_False; [by rewrite lookup_insert_ne |].
          by intros [? | ?]%elem_of_cons. }
  intros Hin. rewrite Hgen. by rewrite decide_True.
Qed.

Lemma shortIdsToInfos_unknown ids c s :
  s ∈ ids -> shortIds2Infos c !! s = None -> shortIdsToInfos ids c !! s = Some None.
Proof. intros Hin Hn. by rewrite shortIdsToInfos_lookup, Hn. Qed.

End CacheFacts.

(** ** Snapshot builder *)

Module SnapshotFacts.

Import RegistryFacts CodecFacts CacheFacts.

Section with_time.
Context `{TimeAPI}.

(** *** The first extractor touches only the legacy tree *)

Lemma same_report_refl fr : same_report fr fr.
Proof. by repeat split. Qed.

Lemma same_report_trans fr1 fr2 fr3 :
  same_report fr1 fr2 -> same_report fr2 fr3 -> same_report fr1 fr3.
Proof. unfold same_report. intros (-> & -> & ->) (-> & -> & ->). done. Qed.

Lemma getTransform_appendUser_frame l u fr :
  same_report fr ((let* pb := getTransform l in appendUser pb u) fr).2.
Proof.
  unfold getTransform, appendUser, bind, get, modify, ret. cbn.
  destruct (transforms fr !! metrics.Transform l); cbn; by repeat split.
Qed.

Lemma visit_legacy_frame lc fr :
  same_report fr (metrics.visit legacyExtractor lc fr).2.
Proof.
  destruct lc as [l [v | count sum min max | v t]]; unfold metrics.visit; cbn.
  - apply getTransform_appendUser_frame.
  - apply getTransform_appendUser_frame.
  - destruct (TimestampProto t) as [ts | err].
    + apply getTransform_appendUser_frame.
    + apply same_report_refl.
Qed.

Lemma legacy_pass_frame store fr :
  same_report fr (metrics.ExtractFrom legacyExtractor store fr).2.
Proof.
  revert fr. induction store as [|lc store IH]; intros fr; cbn.
  - apply same_report_refl.
  - unfold bind. pose proof (visit_legacy_frame lc fr) as Hv.
    destruct (metrics.visit legacyExtractor lc fr) as [[[] | p] fr1]; cbn in *.
    + eapply same_report_trans; [exact Hv | apply IH].
    + exact Hv.
Qed.

(** *** The second extractor *)

(** What [report] does for a URN and a wire type that the tables hold:
    it resolves the short id, stores the payload under it and appends the
    full record.  It does not panic. *)
Lemma report_supported l urn typ payload fr :
  supported urn -> (N.to_nat typ < length sTypes)%nat ->
  exists s c' u ty,
    getShortID l urn (cache fr) = (Ok s, c')
    /\ index sUrns urn = Ok u /\ index sTypes typ = Ok ty
    /\ report l urn typ payload fr =
         (Ok tt,
          {| cache := c'; transforms := transforms fr;
             monitoringInfo := monitoringInfo fr ++
               [{| ppb.Urn := u; ppb.Type_ := ty;
                   ppb.Labels := userLabels l; ppb.Payload := payload |}];
             payloads := <[s := payload]> (payloads fr) |}).
Proof.
  intros Hurn Htyp.
  destruct (getShortID_supported l urn (cache fr) Hurn) as [s Hs].
  destruct (getShortID l urn (cache fr)) as [r c'] eqn:Hcall. cbn in Hs. subst r.
  destruct (index_lt sUrns urn) as (u & Hu & _); [unfold supported in Hurn; lia |].
  destruct (index_lt sTypes typ Htyp) as (ty & Hty & _).
  exists s, c', u, ty. repeat split; try done.
  unfold report, onDefaultCache, bind, modify, liftO.
  rewrite Hcall, Hu, Hty. reflexivity.
Qed.

(** The callbacks of the second extractor, given the encoders' results. *)
Lemma info_SumInt64 l v fr :
  metrics.SumInt64 infoExtractor l v fr =
    report l urnUserSumInt64 typeSumInt64 (coder.varint v) fr.
Proof. reflexivity. Qed.

Lemma info_DistributionInt64 l count sum min max fr :
  metrics.DistributionInt64 infoExtractor l count sum min max fr =
    report l urnUserDistInt64 typeDistInt64
      (coder.varint count ++ coder.varint sum ++ coder.varint min ++ coder.varint max) fr.
Proof.
  unfold infoExtractor, metrics.DistributionInt64.
  by rewrite int64Distribution_eq.
Qed.

Lemma info_GaugeInt64 l v t fr :
  metrics.GaugeInt64 infoExtractor l v t fr =
    report l urnUserLatestMsInt64 typeLatestMsInt64
      (coder.varint (FromTime_Milliseconds t) ++ coder.varint v) fr.
Proof. reflexivity. Qed.

(** Every visit of the second extractor is a [report] on a supported
    URN. *)
Lemma visit_info lc fr :
  exists urn typ payload,
    supported urn /\ (N.to_nat typ < length sTypes)%nat
    /\ metrics.visit infoExtractor lc fr = report lc.1 urn typ payload fr.
Proof.
  destruct lc as [l [v | count sum min max | v t]]; unfold metrics.visit;
    cbn [fst snd].
  - exists urnUserSumInt64, typeSumInt64, (coder.varint v).
    split; [by apply N.ltb_lt |]. split; [by apply Nat.ltb_lt |].
    apply info_SumInt64.
  - eexists urnUserDistInt64, typeDistInt64, _.
    split; [by apply N.ltb_lt |]. split; [by apply Nat.ltb_lt |].
    apply info_DistributionInt64.
  - eexists urnUserLatestMsInt64, typeLatestMsInt64, _.
    split; [by apply N.ltb_lt |]. split; [by apply Nat.ltb_lt |].
    apply info_GaugeInt64.
Qed.

(** The second extractor never panics and leaves the legacy tree alone;
    any property of frames that [report] keeps is kept by the pass. *)
Lemma info_pass_ind (Q : frame -> Prop) :
  (forall l urn typ payload fr,
      supported urn -> (N.to_nat typ < length sTypes)%nat ->
      Q fr -> Q (report l urn typ payload fr).2) ->
  forall store fr, Q fr -> Q (metrics.ExtractFrom infoExtractor store fr).2.
Proof.
  intros Hstep store. induction store as [|lc store IH]; intros fr HQ; cbn.
  - exact HQ.
  - unfold bind.
    destruct (visit_info lc fr) as (urn & typ & payload & Hu & Ht & ->).
    pose proof (Hstep lc.1 urn typ payload fr Hu Ht HQ) as HQ1.
    destruct (report_supported lc.1 urn typ payload fr Hu Ht)
      as (s & c' & u & ty & _ & _ & _ & Hr).
    rewrite Hr in HQ1 |- *. cbn in HQ1. by apply IH.
Qed.

Lemma info_pass_ok store fr :
  exists fr', metrics.ExtractFrom infoExtractor store fr = (Ok tt, fr')
              /\ transforms fr' = transforms fr.
Proof.
  revert fr. induction store as [|lc store IH]; intros fr; cbn.
  - by exists fr.
  - unfold bind.
    destruct (visit_info lc fr) as (urn & typ & payload & Hu & Ht & ->).
    destruct (report_supported lc.1 urn typ payload fr Hu Ht)
      as (s & c' & u & ty & _ & _ & _ & ->).
    destruct (IH {| cache := c'; transforms := transforms fr;
                    monitoringInfo := monitoringInfo fr ++
                      [{| ppb.Urn := u; ppb.Type_ := ty;
                          ppb.Labels := userLabels lc.1; ppb.Payload := payload |}];
                    payloads := <[s:=payload]> (payloads fr) |})
      as (fr' & -> & Ht').
    by exists fr'.
Qed.

(** *** The progress merge and the whole pass *)

Lemma mergeProgress_eq snapshot fr :
  mergeProgress snapshot fr =
    (Ok tt,
     set_monitoringInfo (fun infos => infos ++ [progressInfo snapshot])
       (set_transforms (insert (exec.ID snapshot) (progressEntry snapshot)) fr)).
Proof. reflexivity. Qed.

(** [monitoring] on a plan with a store: a panic can only come from the
    first extractor; otherwise both passes run and the result is read off
    the final frame. *)
Lemma monitoring_eq store progress c :
  monitoring {| exec.Store := Some store; exec.Progress := progress |} c =
    match metrics.ExtractFrom legacyExtractor store (enter c) with
    | (Panic p, _) => (Panic p, c)
    | (Ok _, fr1) =>
        let fr2 := (metrics.ExtractFrom infoExtractor store fr1).2 in
        (Ok (returned (merged progress fr2)), cache fr2)
    end.
Proof.
  unfold monitoring, monitoring_body. cbn [exec.Store exec.Progress].
  unfold bind at 1.
  pose proof (legacy_pass_frame store (enter c)) as (Hc & _ & _).
  destruct (metrics.ExtractFrom legacyExtractor store (enter c)) as [[[] | p] fr1];
    cbn in Hc; [| by rewrite Hc].
  unfold bind at 1.
  destruct (info_pass_ok store fr1) as (fr2 & -> & _). cbn [snd].
  destruct progress as [snapshot |]; unfold bind at 1.
  - rewrite mergeProgress_eq. reflexivity.
  - reflexivity.
Qed.

(** C7 (amended).  Without a store, and without a progress snapshot,
    [monitoring] returns [(nil, nil, nil)].  With a store that holds no
    metric it returns results that are empty but not all nil: a legacy
    tree without transforms (a non-nil [*fnpb.Metrics]), a nil record list
    and an empty, non-nil payload map.  Either way nothing panics and the
    cache is as before. *)
Theorem monitoring_without_metrics (c : shortIDCache) :
  monitoring {| exec.Store := None; exec.Progress := None |} c
    = (Ok (None, [], None), c)
  /\ monitoring {| exec.Store := Some []; exec.Progress := None |} c
      = (Ok (Some {| fnpb.Ptransforms := ∅ |}, [], Some ∅), c)
  /\ allEmpty (None, [], None)
  /\ allEmpty (Some {| fnpb.Ptransforms := ∅ |}, [], Some ∅).
Proof. by repeat split. Qed.

(** The early return also ignores a progress snapshot. *)
Lemma monitoring_no_store progress c :
  monitoring {| exec.Store := None; exec.Progress := progress |} c
    = (Ok (None, [], None), c).
Proof. reflexivity. Qed.

(** C8 (amended).  With a store attached, supplying a progress snapshot
    changes the result of the pass as follows and in no other way: the
    entry of the legacy tree under the snapshot's transform id is replaced
    by a fresh entry that holds only [processedElements[Name] = Count] (no
    user entry), the record list gains one last record with the
    element-count URN, the sum-int64 type, the single label
    [PCOLLECTION: PID] and the encoded count, and the payload map, the
    cache and a panic of the first extractor are the same. *)
Theorem progress_replaces_entry store snapshot c :
  monitoring {| exec.Store := Some store; exec.Progress := Some snapshot |} c =
    (match (monitoring {| exec.Store := Some store; exec.Progress := None |} c).1 with
     | Ok r => Ok (withProgress snapshot r)
     | Panic p => Panic p
     end,
     (monitoring {| exec.Store := Some store; exec.Progress := None |} c).2).
Proof.
  rewrite !monitoring_eq.
  destruct (metrics.ExtractFrom legacyExtractor store (enter c)) as [[[] | p] fr1];
    reflexivity.
Qed.

(** What [withProgress] means for the legacy tree: the entry of the
    snapshot's transform carries the count and no user entry; the entries
    of the other transforms are untouched. *)
Lemma withProgress_tree snapshot m infos pl :
  exists m',
    withProgress snapshot (Some m, infos, pl)
      = (Some m', infos ++ [progressInfo snapshot], pl)
    /\ elementCount m' (exec.ID snapshot) (exec.Name snapshot) = Some (exec.Count snapshot)
    /\ (exists pt, fnpb.Ptransforms m' !! exec.ID snapshot = Some pt /\ fnpb.User pt = [])
    /\ (forall t, t <> exec.ID snapshot ->
          fnpb.Ptransforms m' !! t = fnpb.Ptransforms m !! t).
Proof.
  eexists. split; [reflexivity |]. cbn. repeat split.
  - unfold elementCount. cbn. rewrite lookup_insert_eq. cbn.
    by rewrite lookup_singleton_eq.
  - eexists. by rewrite lookup_insert_eq.
  - intros t Hne. by rewrite lookup_insert_ne.
Qed.

(** C10.  The encoders return a nil error on every input, so the
    callbacks of the second extractor for sums and distributions never
    take the branch that panics on an encoding error: they return
    normally. *)
Theorem encoders_never_fail (v count sum min max : Z)
    (l : metrics.Labels) (fr : frame) :
  (int64Counter v).2 = None
  /\ (int64Distribution count sum min max).2 = None
  /\ (exists fr', metrics.SumInt64 infoExtractor l v fr = (Ok tt, fr'))
  /\ (exists fr',
        metrics.DistributionInt64 infoExtractor l count sum min max fr = (Ok tt, fr')).
Proof.
  split; [reflexivity |]. split; [by rewrite int64Distribution_eq |]. split.
  - rewrite info_SumInt64.
    edestruct (report_supported l urnUserSumInt64 typeSumInt64)
      as (s & c' & u & ty & _ & _ & _ & ->);
      [by apply N.ltb_lt | by apply Nat.ltb_lt | eauto].
  - rewrite info_DistributionInt64.
    edestruct (report_supported l urnUserDistInt64 typeDistInt64)
      as (s & c' & u & ty & _ & _ & _ & ->);
      [by apply N.ltb_lt | by apply Nat.ltb_lt | eauto].
Qed.

(** *** Metadata *)

Lemma userLabels_sample :
  userLabels labels_t1_ns_n
    = {[ "PTRANSFORM" := "t1"; "NAMESPACE" := "ns"; "NAME" := "n" ]}.
Proof. vm_compute. reflexivity. Qed.

(** C4.  For a store that holds the one user sum-int64 metric [n] of
    namespace [ns] on transform [t1] with value 7, whatever the cache and
    the progress snapshot: the pass returns; the record list contains a
    record with the user sum-int64 URN and exactly the labels
    [PTRANSFORM: t1, NAMESPACE: ns, NAME: n]; and the payload map sends
    the short id of that identity, the one [getShortID] resolves and the
    cache then holds, to [encodeCounter(7)], the single byte 7. *)
Theorem metadata_completeness progress c :
  exists tree infos pl c' s,
    monitoring {| exec.Store := Some [(labels_t1_ns_n, metrics.Counter 7)];
                  exec.Progress := progress |} c
      = (Ok (Some tree, infos, Some pl), c')
    /\ getShortID labels_t1_ns_n urnUserSumInt64 c = (Ok s, c')
    /\ labels2ShortIds c' !! {| Labels := labels_t1_ns_n; Urn := urnUserSumInt64 |}
         = Some s
    /\ pl !! s = Some (int64Counter 7).1
    /\ (int64Counter 7).1 = [7%N]
    /\ exists r, r ∈ infos
                 /\ ppb.Urn r = "beam:metric:user:sum_int64:v1"
                 /\ index sUrns urnUserSumInt64 = Ok (ppb.Urn r)
                 /\ ppb.Labels r
                      = {[ "PTRANSFORM" := "t1"; "NAMESPACE" := "ns"; "NAME" := "n" ]}
                 /\ ppb.Payload r = (int64Counter 7).1.
Proof.
  rewrite monitoring_eq.
  pose proof (legacy_pass_frame [(labels_t1_ns_n, metrics.Counter 7)] (enter c))
    as (Hc & Hi & Hp).
  destruct (metrics.ExtractFrom legacyExtractor
              [(labels_t1_ns_n, metrics.Counter 7)] (enter c))
    as [[[] | p] fr1] eqn:Hleg; [| vm_compute in Hleg; discriminate].
  cbn in Hc, Hi, Hp.
  cbn [metrics.ExtractFrom]. unfold bind, metrics.visit. cbn [fst snd].
  rewrite info_SumInt64.
  destruct (report_supported labels_t1_ns_n urnUserSumInt64 typeSumInt64
              (coder.varint 7) fr1)
    as (s & c' & u & ty & Hcall & Hu & Hty & ->);
    [by apply N.ltb_lt | by apply Nat.ltb_lt |].
  rewrite Hc in Hcall. rewrite Hi, Hp.
  injection Hu as <-. injection Hty as <-.
  pose proof (getShortID_binds labels_t1_ns_n urnUserSumInt64 c) as (s' & Hb & Hs').
  rewrite Hcall in Hb, Hs'. cbn in Hb, Hs'. rewrite <- (Hs' s eq_refl) in Hb.
  do 3 eexists. exists c', s.
  split; [reflexivity |]. split; [exact Hcall |]. split; [exact Hb |].
  split.
  { destruct progress; cbn; by rewrite lookup_insert_eq. }
  split; [reflexivity |].
  exists {| ppb.Urn := "beam:metric:user:sum_int64:v1";
            ppb.Type_ := "beam:metrics:sum_int64:v1";
            ppb.Labels := userLabels labels_t1_ns_n;
            ppb.Payload := coder.varint 7 |}.
  split.
  { destruct progress; cbn; set_solver. }
  split; [reflexivity |]. split; [reflexivity |].
  split; [exact userLabels_sample | reflexivity].
Qed.

(** *** Descriptors are there when payloads are *)

Lemma report_cache l urn typ payload fr :
  supported urn -> (N.to_nat typ < length sTypes)%nat ->
  cache (report l urn typ payload fr).2 = (getShortID l urn (cache fr)).2.
Proof.
  intros Hu Ht.
  destruct (report_supported l urn typ payload fr Hu Ht)
    as (s & c' & u & ty & -> & _ & _ & ->). reflexivity.
Qed.

(** Whatever [getShortID] keeps, [monitoring] keeps. *)
Lemma monitoring_cache_ind (P : shortIDCache -> Prop) :
  (forall l urn c, P c -> P (getShortID l urn c).2) ->
  forall p c, P c -> P (monitoring p c).2.
Proof.
  intros Hstep [[store |] progress] c HP; [| exact HP].
  rewrite monitoring_eq.
  pose proof (legacy_pass_frame store (enter c)) as (Hc & _ & _).
  destruct (metrics.ExtractFrom legacyExtractor store (enter c)) as [[[] | e] fr1];
    [| exact HP].
  cbn in Hc |- *.
  apply (info_pass_ind (fun fr => P (cache fr))); [| by rewrite Hc].
  intros l urn typ payload fr Hu Ht HQ. rewrite report_cache by done.
  by apply Hstep.
Qed.

Lemma reachable_wf c : reachable c -> cache_wf c.
Proof.
  induction 1 as [| l urn c _ IH | p c _ IH].
  - apply cache_wf_new.
  - by apply getShortID_wf.
  - apply monitoring_cache_ind; [| exact IH].
    intros; by apply getShortID_wf.
Qed.

Lemma report_payloads_described l urn typ payload fr :
  supported urn -> (N.to_nat typ < length sTypes)%nat ->
  payloads_described fr -> payloads_described (report l urn typ payload fr).2.
Proof.
  intros Hu Ht [Hwf Hpl].
  destruct (report_supported l urn typ payload fr Hu Ht)
    as (s & c' & u & ty & Hcall & _ & _ & ->). cbn.
  pose proof (getShortID_wf l urn (cache fr) Hwf) as Hwf'.
  pose proof (getShortID_binds l urn (cache fr)) as (s' & Hb & Hs').
  pose proof (fun s0 => getShortID_infos_mono l urn (cache fr) s0) as Hmono.
  rewrite Hcall in Hwf', Hb, Hs', Hmono. cbn in Hwf', Hb, Hs', Hmono.
  rewrite <- (Hs' s eq_refl) in Hb.
  split; cbn; [exact Hwf' |].
  intros s0 Hs0. rewrite lookup_insert in Hs0. case_decide as Heq.
  - subst s0. by eapply (wf_described _ Hwf').
  - by apply Hmono, Hpl.
Qed.

(** C9.  On a cache the process can hold, after [monitoring] returns,
    every short id that keys the returned payload map has a descriptor in
    the cache, the descriptor is fully populated (it is the one built for
    some identity), and a batch lookup that asks for the id returns that
    descriptor, not a nil one. *)
Theorem payload_ids_described p c tree infos pl c' :
  reachable c ->
  monitoring p c = (Ok (tree, infos, Some pl), c') ->
  forall s, is_Some (pl !! s) ->
    exists info,
      shortIds2Infos c' !! s = Some info
      /\ populated info
      /\ forall ids, s ∈ ids -> shortIdsToInfos ids c' !! s = Some (Some info).
Proof.
  intros Hreach Hmon s Hs.
  assert (Hgoal : is_Some (shortIds2Infos c' !! s) /\ cache_wf c').
  { destruct p as [[store |] progress]; [| cbn in Hmon; congruence].
    rewrite monitoring_eq in Hmon.
    pose proof (legacy_pass_frame store (enter c)) as (Hc & _ & Hp).
    destruct (metrics.ExtractFrom legacyExtractor store (enter c))
      as [[[] | e] fr1]; [| congruence].
    cbn in Hc, Hp, Hmon.
    assert (Hd : payloads_described (metrics.ExtractFrom infoExtractor store fr1).2).
    { apply (info_pass_ind payloads_described).
      - intros; by apply report_payloads_described.
      - split; [rewrite Hc; by apply reachable_wf |].
        intros s0. rewrite Hp. cbn. rewrite lookup_empty. by intros [? ?]. }
    destruct Hd as [Hwf Hpl].
    injection Hmon as _ _ Hpl' Hc'. subst c'.
    split; [| exact Hwf]. apply Hpl. rewrite <- Hpl' in Hs.
    by destruct progress. }
  destruct Hgoal as [[info Hinfo] Hwf].
  exists info. split; [exact Hinfo |]. split; [by eapply (wf_populated _ Hwf) |].
  intros ids Hin. by rewrite shortIdsToInfos_lookup, Hinfo.
Qed.

End with_time.

(** *** Closed instances *)

Example monitoring_sample_payloads :
  (monitoring (H := sampleTimeAPI) sample_plan newShortIDCache).1
  = Ok (Some {| fnpb.Ptransforms :=
                  {[ "t1" :=
                       {| fnpb.ProcessedElements := None;
                          fnpb.User :=
                            [ {| fnpb.MetricName := {| fnpb.Name := "n"; fnpb.Namespace := "ns" |};
                                 fnpb.Data := fnpb.CounterData {| fnpb.Value := 7 |} |};
                              {| fnpb.MetricName := {| fnpb.Name := "n"; fnpb.Namespace := "ns" |};
                                 fnpb.Data := fnpb.DistributionData
                                   {| fnpb.Count := 3; fnpb.Sum := 30;
                                      fnpb.Min := 5; fnpb.Max := 15 |} |} ] |};
                     "pc1" := progressEntry snapshot_pc1 ]} |},
        [ {| ppb.Urn := "beam:metric:user:sum_int64:v1";
             ppb.Type_ := "beam:metrics:sum_int64:v1";
             ppb.Labels := userLabels labels_t1_ns_n;
             ppb.Payload := [7%N] |};
          {| ppb.Urn := "beam:metric:user:distribution_int64:v1";
             ppb.Type_ := "beam:metrics:distribution_int64:v1";
             ppb.Labels := userLabels labels_t1_ns_n;
             ppb.Payload := [3; 30; 5; 15]%N |};
          {| ppb.Urn := "beam:metric:user:latest_int64:v1";
             ppb.Type_ := "beam:metrics:latest_int64:v1";
             ppb.Labels := userLabels labels_pc1_ns_n;
             ppb.Payload := [232; 7; 9]%N |};
          {| ppb.Urn := "beam:metric:element_count:v1";
             ppb.Type_ := "beam:metrics:sum_int64:v1";
             ppb.Labels := {[ "PCOLLECTION" := "pc1" ]};
             ppb.Payload := [42%N] |} ],
        Some {[ "1" := [7%N]; "2" := [3; 30; 5; 15]%N; "3" := [232; 7; 9]%N ]}).
Proof. vm_compute. reflexivity. Qed.

Lemma payload_ids_described_witness :
  exists info,
    shortIds2Infos (monitoring (H := sampleTimeAPI) sample_plan newShortIDCache).2 !! "2"
      = Some info
    /\ populated info
    /\ forall ids, "2" ∈ ids ->
         shortIdsToInfos ids
           (monitoring (H := sampleTimeAPI) sample_plan newShortIDCache).2 !! "2"
         = Some (Some info).
Proof.
  eapply (payload_ids_described (H := sampleTimeAPI) sample_plan newShortIDCache
            _ _ {[ "1" := [7%N]; "2" := [3; 30; 5; 15]%N; "3" := [232; 7; 9]%N ]}).
  - apply reachable_new.
  - vm_compute. reflexivity.
  - exists [3; 30; 5; 15]%N. vm_compute. reflexivity.
Defined.

(** C7 (the claim as worded fails).  For a store that is present and
    holds no metric the result is not [(nil, nil, nil)]: only a nil store
    takes the early return. *)
Lemma empty_store_result_not_nil :
  (monitoring (H := sampleTimeAPI)
     {| exec.Store := Some []; exec.Progress := None |} newShortIDCache).1
  <> Ok (None, [], None).
Proof. vm_compute. discriminate. Qed.

(** C8 (the claim as worded fails).  A user counter recorded under the
    transform [pc1] is in the legacy tree of the pass without progress and
    is gone from the entry of [pc1] once the progress snapshot of [pc1] is
    merged. *)
Lemma progress_merge_claim_fails :
  ~ progress_merge_claim sampleTimeAPI
      [(labels_pc1_ns_n, metrics.Counter 7)] newShortIDCache.
Proof.
  intros Hclaim.
  edestruct Hclaim as (_ & Huser & _);
    [vm_compute; reflexivity | vm_compute; reflexivity |].
  edestruct Huser as (pt' & Hl & Hu); [vm_compute; reflexivity |].
  vm_compute in Hl. injection Hl as <-. vm_compute in Hu. discriminate.
Qed.

End SnapshotFacts.

(** ** The cache over the life of a process *)

Module CacheLifetime.

Import RegistryFacts StrconvFacts CacheFacts.

Local Open Scope Z_scope.

Lemma numbered_new : numbered newShortIDCache.
Proof.
  split; cbn; try lia; intros *; rewrite ?lookup_empty; try done; lia.
Qed.

(** One call on a numbered cache, with room left in the counter. *)
Lemma getShortID_numbered l urn c :
  numbered c -> lastShortID c < 2 ^ 63 - 1 ->
  numbered (getShortID l urn c).2
  /\ lastShortID (getShortID l urn c).2 <= lastShortID c + 1
  /\ forall s info,
       shortIds2Infos c !! s = Some info ->
       shortIds2Infos (getShortID l urn c).2 !! s = Some info.
Proof.
  intros [Hlast Hsize Htok Hall Hinf Hdesc] Hroom.
  destruct (labels2ShortIds c !! {| Labels := l; Urn := urn |}) as [s0|] eqn:Hk.
  { rewrite (getShortID_hit _ _ _ _ Hk). cbn. split; [by split |]. split; [lia | done]. }
  rewrite (getShortID_miss _ _ _ Hk). cbn zeta.
  assert (Hw : wrap64 (lastShortID c + 1) = lastShortID c + 1)
    by (apply wrap64_small; lia).
  set (s1 := strconv.FormatInt (lastShortID c + 1) 36).
  assert (Hfresh : forall s info, shortIds2Infos c !! s = Some info -> s <> s1).
  { intros s info Hs ->. destruct (Hinf _ _ Hs) as (i & Hi & Heq).
    apply FormatInt_36_inj in Heq; lia. }
  assert (Hfresh' : forall k s, labels2ShortIds c !! k = Some s -> s <> s1).
  { intros k s Hs ->. destruct (Htok _ _ Hs) as (i & Hi & Heq).
    apply FormatInt_36_inj in Heq; lia. }
  assert (Hcommon :
    forall infos',
      (forall s info, infos' !! s = Some info ->
         exists i, 1 <= i <= lastShortID c + 1 /\ s = strconv.FormatInt i 36) ->
      (forall k s info,
         <[ {| Labels := l; Urn := urn |} := s1 ]> (labels2ShortIds c) !! k = Some s ->
         descriptor (Labels k) (Urn k) = Ok info -> infos' !! s = Some info) ->
      numbered {| labels2ShortIds :=
                    <[ {| Labels := l; Urn := urn |} := s1 ]> (labels2ShortIds c);
                  shortIds2Infos := infos';
                  lastShortID := lastShortID c + 1 |}).
  { intros infos' Hi' Hd'. split; cbn.
    - lia.
    - rewrite map_size_insert_None by done. lia.
    - intros k s [[<- <-] | [Hne Hs]]%lookup_insert_Some.
      + exists (lastShortID c + 1). split; [lia | done].
      + destruct (Htok _ _ Hs) as (i & Hi & ->). exists i. split; [lia | done].
    - intros i Hi. destruct (decide (i = lastShortID c + 1)) as [-> | Hne].
      + exists {| Labels := l; Urn := urn |}. by rewrite lookup_insert_eq.
      + destruct (Hall i ltac:(lia)) as [k Hk'].
        exists k. rewrite lookup_insert_ne; [done |]. congruence.
    - exact Hi'.
    - exact Hd'. }
  unfold bound. rewrite Hw. fold s1.
  destruct (descriptor l urn) as [info | p] eqn:Hdl; cbn.
  - split; [| split; [lia |]].
    + apply Hcommon.
      * intros s info' [[<- <-] | [Hne Hs]]%lookup_insert_Some.
        -- exists (lastShortID c + 1). split; [lia | done].
        -- destruct (Hinf _ _ Hs) as (i & Hi & ->). exists i. split; [lia | done].
      * intros k s info' [[<- <-] | [Hne Hs]]%lookup_insert_Some Hd'.
        -- cbn in Hd'. rewrite lookup_insert_eq. congruence.
        -- rewrite lookup_insert_ne; [by eapply Hdesc | ].
           intros <-. by eapply Hfresh'.
    + intros s info' Hs. rewrite lookup_insert_ne; [done |].
      intros <-. by eapply Hfresh.
  - split; [| split; [lia | done]].
    apply Hcommon.
    + intros s info' Hs. destruct (Hinf _ _ Hs) as (i & Hi & ->).
      exists i. split; [lia | done].
    + intros k s info' [[<- <-] | [Hne Hs]]%lookup_insert_Some Hd'.
      * cbn in Hd'. congruence.
      * by eapply Hdesc.
Qed.

Lemma resolveAll_numbered reqs c :
  numbered c -> lastShortID c + Z.of_nat (length reqs) < 2 ^ 63 ->
  numbered (resolveAll reqs c).2
  /\ lastShortID (resolveAll reqs c).2 <= lastShortID c + Z.of_nat (length reqs)
  /\ forall s info,
       shortIds2Infos c !! s = Some info ->
       shortIds2Infos (resolveAll reqs c).2 !! s = Some info.
Proof.
  revert c. induction reqs as [|k reqs IH]; intros c Hn Hlen.
  { cbn. split; [done |]. split; [lia | done]. }
  cbn [length] in Hlen. cbn [resolveAll].
  destruct (getShortID_numbered (Labels k) (Urn k) c Hn ltac:(lia))
    as (Hn1 & Hl1 & Hi1).
  destruct (getShortID (Labels k) (Urn k) c) as [r c1]. cbn in Hn1, Hl1, Hi1.
  destruct (IH c1 Hn1 ltac:(lia)) as (Hn2 & Hl2 & Hi2).
  destruct (resolveAll reqs c1) as [rs c2]. cbn in *.
  split; [done |]. split; [lia |]. intros s info Hs. by apply Hi2, Hi1.
Qed.

Lemma resolveAll_app reqs more c :
  (resolveAll (reqs ++ more) c).2 = (resolveAll more (resolveAll reqs c).2).2.
Proof.
  revert c. induction reqs as [|k reqs IH]; intros c; [done |].
  change ((k :: reqs) ++ more) with (k :: (reqs ++ more)). cbn [resolveAll].
  destruct (getShortID (Labels k) (Urn k) c) as [r c1].
  specialize (IH c1).
  destruct (resolveAll (reqs ++ more) c1) as [rs c2].
  destruct (resolveAll reqs c1) as [rs' c2']. cbn in *. exact IH.
Qed.

Lemma resolveAll_mono reqs c :
  labels2ShortIds c ⊆ labels2ShortIds (resolveAll reqs c).2.
Proof.
  revert c. induction reqs as [|k reqs IH]; intros c; cbn [resolveAll]; [done |].
  pose proof (getShortID_mono (Labels k) (Urn k) c) as Hm.
  destruct (getShortID (Labels k) (Urn k) c) as [r c1]. cbn in Hm.
  specialize (IH c1). destruct (resolveAll reqs c1) as [rs c2]. cbn in *.
  by etrans.
Qed.

(** *** The name tables *)

Lemma sUrns_NoDup : NoDup sUrns.
Proof. apply (bool_decide_unpack _). vm_compute. reflexivity. Qed.

Lemma index_Ok_lookup (tbl : list string) (i : N) (x : string) :
  index tbl i = Ok x -> tbl !! N.to_nat i = Some x.
Proof. unfold index. destruct (tbl !! N.to_nat i); congruence. Qed.

Lemma userLabels_lookups l :
  userLabels l !! "PTRANSFORM" = Some (metrics.Transform l)
  /\ userLabels l !! "NAMESPACE" = Some (metrics.Namespace l)
  /\ userLabels l !! "NAME" = Some (metrics.Name l).
Proof.
  unfold userLabels. repeat split; reflexivity.
Qed.

Lemma userLabels_inj l l' : userLabels l = userLabels l' -> l = l'.
Proof.
  intros Heq.
  destruct (userLabels_lookups l) as (Ht & Hn & Hm).
  destruct (userLabels_lookups l') as (Ht' & Hn' & Hm').
  rewrite Heq in Ht, Hn, Hm.
  destruct l, l'. cbn in *. congruence.
Qed.

Lemma descriptor_fields l urn info :
  descriptor l urn = Ok info ->
  index sUrns urn = Ok (ppb.Urn info)
  /\ (exists t, urnToType urn = Ok t /\ index sTypes t = Ok (ppb.Type_ info))
  /\ ppb.Labels info = userLabels l
  /\ ppb.Payload info = [].
Proof.
  unfold descriptor.
  destruct (index sUrns urn) as [u |]; [| discriminate].
  destruct (urnToType urn) as [t |]; [| discriminate].
  destruct (index sTypes t) as [ty |] eqn:Hty; [| discriminate].
  intros [= <-]. cbn. eauto 6.
Qed.

(** X1.  For a declared URN all three table lookups of [getShortID]
    succeed: the URN has a name, [urnToType] gives it a wire type, and the
    wire type has a name. *)
Theorem declared_urn_lookups (u : mUrn) :
  supported u ->
  exists name t ty,
    index sUrns u = Ok name /\ urnToType u = Ok t /\ index sTypes t = Ok ty.
Proof.
  intros Hu.
  destruct (index_lt sUrns u) as (name & Hn & _); [unfold supported in Hu; lia |].
  destruct (urnToType_supported u Hu) as (t & Ht & Hlt).
  destruct (index_lt sTypes t Hlt) as (ty & Hty & _).
  eauto 6.
Qed.

Lemma declared_urn_lookups_witness :
  exists name t ty,
    index sUrns urnSampledByteSize = Ok name
    /\ urnToType urnSampledByteSize = Ok t /\ index sTypes t = Ok ty.
Proof.
  apply (declared_urn_lookups urnSampledByteSize). by apply N.ltb_lt.
Defined.

(** X2.  A descriptor tells the identity it was built for: two identities
    with the same descriptor have the same labels and the same URN,
    because no two URNs share a name and the three labels are the three
    fields of the identity. *)
Theorem descriptor_identifies l urn l' urn' info :
  descriptor l urn = Ok info -> descriptor l' urn' = Ok info ->
  l = l' /\ urn = urn'.
Proof.
  intros (Hu & _ & Hl & _)%descriptor_fields (Hu' & _ & Hl' & _)%descriptor_fields.
  split.
  - apply userLabels_inj. congruence.
  - apply index_Ok_lookup in Hu, Hu'.
    pose proof (NoDup_lookup _ _ _ _ sUrns_NoDup Hu Hu'). lia.
Qed.

Lemma descriptor_identifies_witness :
  labels_t1_ns_n = labels_t1_ns_n /\ urnUserDistInt64 = urnUserDistInt64.
Proof.
  eapply (descriptor_identifies labels_t1_ns_n urnUserDistInt64
            labels_t1_ns_n urnUserDistInt64); vm_compute; reflexivity.
Defined.

(** *** Single calls *)

(** X3.  First resolution of an identity with a declared URN, on any
    cache: the call returns the base-36 numeral of the incremented
    counter, binds the identity to it, stores the descriptor built from
    the identity under it, and a batch lookup of the token returns that
    descriptor. *)
Theorem fresh_identity_round_trip l urn c :
  supported urn ->
  labels2ShortIds c !! {| Labels := l; Urn := urn |} = None ->
  exists info c',
    getShortID l urn c
      = (Ok (strconv.FormatInt (wrap64 (lastShortID c + 1)) 36), c')
    /\ descriptor l urn = Ok info
    /\ lastShortID c' = wrap64 (lastShortID c + 1)
    /\ labels2ShortIds c' !! {| Labels := l; Urn := urn |}
         = Some (strconv.FormatInt (wrap64 (lastShortID c + 1)) 36)
    /\ shortIds2Infos c' !! strconv.FormatInt (wrap64 (lastShortID c + 1)) 36
         = Some info
    /\ shortIdsToInfos [strconv.FormatInt (wrap64 (lastShortID c + 1)) 36] c'
           !! strconv.FormatInt (wrap64 (lastShortID c + 1)) 36
         = Some (Some info)
    /\ ppb.Labels info = userLabels l
    /\ index sUrns urn = Ok (ppb.Urn info).
Proof.
  intros Hu Hk. destruct (descriptor_supported l urn Hu) as [info Hd].
  destruct (descriptor_fields _ _ _ Hd) as (Hn & _ & Hl & _).
  rewrite (getShortID_miss _ _ _ Hk), Hd. cbn zeta.
  eexists info, _. split; [reflexivity |]. cbn.
  rewrite !lookup_insert_eq. repeat split; done.
Qed.

Lemma fresh_identity_round_trip_witness :
  exists info c',
    getShortID labels_t1_ns_n urnUserSumInt64 newShortIDCache
      = (Ok (strconv.FormatInt (wrap64 (lastShortID newShortIDCache + 1)) 36), c')
    /\ descriptor labels_t1_ns_n urnUserSumInt64 = Ok info
    /\ lastShortID c' = wrap64 (lastShortID newShortIDCache + 1)
    /\ labels2ShortIds c' !! {| Labels := labels_t1_ns_n; Urn := urnUserSumInt64 |}
         = Some (strconv.FormatInt (wrap64 (lastShortID newShortIDCache + 1)) 36)
    /\ shortIds2Infos c'
           !! strconv.FormatInt (wrap64 (lastShortID newShortIDCache + 1)) 36
         = Some info
    /\ shortIdsToInfos
           [strconv.FormatInt (wrap64 (lastShortID newShortIDCache + 1)) 36] c'
           !! strconv.FormatInt (wrap64 (lastShortID newShortIDCache + 1)) 36
         = Some (Some info)
    /\ ppb.Labels info = userLabels labels_t1_ns_n
    /\ index sUrns urnUserSumInt64 = Ok (ppb.Urn info).
Proof.
  apply (fresh_identity_round_trip labels_t1_ns_n urnUserSumInt64 newShortIDCache).
  - by apply N.ltb_lt.
  - vm_compute. reflexivity.
Defined.

(** X4.  First resolution of an identity whose URN is not declared: the
    call panics while indexing [sUrns], but only after it has bumped the
    counter and bound the identity; no descriptor is stored.  The next
    call for the identity therefore returns the token, and a batch lookup
    of the token finds what was under it before, nil when nothing was. *)
Theorem undeclared_urn_leaves_binding l urn c :
  ~ supported urn ->
  labels2ShortIds c !! {| Labels := l; Urn := urn |} = None ->
  getShortID l urn c = (Panic (IndexOutOfRange urn (length sUrns)), bound l urn c)
  /\ getShortID l urn (bound l urn c)
      = (Ok (strconv.FormatInt (wrap64 (lastShortID c + 1)) 36), bound l urn c)
  /\ shortIds2Infos (bound l urn c) = shortIds2Infos c
  /\ shortIdsToInfos [strconv.FormatInt (wrap64 (lastShortID c + 1)) 36]
        (bound l urn c) !! strconv.FormatInt (wrap64 (lastShortID c + 1)) 36
      = Some (shortIds2Infos c !! strconv.FormatInt (wrap64 (lastShortID c + 1)) 36).
Proof.
  intros Hu Hk. split.
  { by rewrite (getShortID_miss _ _ _ Hk), (descriptor_unsupported _ _ Hu). }
  split.
  { apply getShortID_hit. cbn. by rewrite lookup_insert_eq. }
  split; [done |].
  unfold shortIdsToInfos. cbn. by rewrite lookup_insert_eq.
Qed.

Lemma undeclared_urn_leaves_binding_witness :
  getShortID labels_t1_ns_n sample_unsupported newShortIDCache
    = (Panic (IndexOutOfRange sample_unsupported (length sUrns)),
       bound labels_t1_ns_n sample_unsupported newShortIDCache)
  /\ getShortID labels_t1_ns_n sample_unsupported
        (bound labels_t1_ns_n sample_unsupported newShortIDCache)
      = (Ok (strconv.FormatInt (wrap64 (lastShortID newShortIDCache + 1)) 36),
         bound labels_t1_ns_n sample_unsupported newShortIDCache)
  /\ shortIds2Infos (bound labels_t1_ns_n sample_unsupported newShortIDCache)
      = shortIds2Infos newShortIDCache
  /\ shortIdsToInfos [strconv.FormatInt (wrap64 (lastShortID newShortIDCache + 1)) 36]
        (bound labels_t1_ns_n sample_unsupported newShortIDCache)
        !! strconv.FormatInt (wrap64 (lastShortID newShortIDCache + 1)) 36
      = Some (shortIds2Infos newShortIDCache
                !! strconv.FormatInt (wrap64 (lastShortID newShortIDCache + 1)) 36).
Proof.
  apply (undeclared_urn_leaves_binding labels_t1_ns_n sample_unsupported newShortIDCache).
  - unfold supported, sample_unsupported. cbn. lia.
  - vm_compute. reflexivity.
Defined.

(** X5.  The batch lookup answers exactly for the ids it was asked: an id
    of the request maps to what the cache holds under it (nil when the
    cache does not know it), and an id that was not requested is not a key
    of the result. *)
Theorem shortIdsToInfos_exact ids c s :
  shortIdsToInfos ids c !! s =
    if decide (s ∈ ids) then Some (shortIds2Infos c !! s) else None.
Proof.
  unfold shortIdsToInfos.
  assert (Hgen : forall m : gmap string (option ppb.MonitoringInfo),
             foldl (fun m s => <[s := shortIds2Infos c !! s]> m) m ids !! s =
               if decide (s ∈ ids) then Some (shortIds2Infos c !! s) else m !! s).
  { induction ids as [|x ids IH]; intros m; cbn.
    - case_decide as Hin; [by apply elem_of_nil in Hin | done].
    - rewrite IH. destruct (decide (s ∈ ids)) as [Hin | Hnin].
      + rewrite decide_True; [done | by right].
      + destruct (decide (s = x)) as [-> | Hne].
        * rewrite decide_True; [| by left]. by rewrite lookup_insert_eq.
        * rewrite decide_False; [by rewrite lookup_insert_ne |].
          by intros [? | ?]%elem_of_cons. }
  rewrite Hgen. by rewrite lookup_empty.
Qed.

(** *** Sequences of calls from the start of the process *)

(** X6.  After any sequence of calls on the cache of a fresh process
    (shorter than 2^63), the counter is the number of bound identities and
    the tokens in use are exactly the base-36 numerals of 1 up to the
    counter: short ids are handed out in counting order with no gap. *)
Theorem counter_counts_identities (reqs : list shortKey) :
  Z.of_nat (length reqs) < 2 ^ 63 ->
  lastShortID (resolveAll reqs newShortIDCache).2
    = Z.of_nat (size (labels2ShortIds (resolveAll reqs newShortIDCache).2))
  /\ (forall k s,
        labels2ShortIds (resolveAll reqs newShortIDCache).2 !! k = Some s ->
        exists i, 1 <= i <= lastShortID (resolveAll reqs newShortIDCache).2
                  /\ s = strconv.FormatInt i 36)
  /\ (forall i,
        1 <= i <= lastShortID (resolveAll reqs newShortIDCache).2 ->
        exists k, labels2ShortIds (resolveAll reqs newShortIDCache).2 !! k
                  = Some (strconv.FormatInt i 36)).
Proof.
  intros Hlen.
  destruct (resolveAll_numbered reqs newShortIDCache numbered_new)
    as ([_ Hsize Htok Hall _ _] & _ & _); [cbn; lia |].
  done.
Qed.

Lemma counter_counts_identities_witness :
  lastShortID (resolveAll sample_requests newShortIDCache).2
    = Z.of_nat (size (labels2ShortIds (resolveAll sample_requests newShortIDCache).2))
  /\ (forall k s,
        labels2ShortIds (resolveAll sample_requests newShortIDCache).2 !! k = Some s ->
        exists i, 1 <= i <= lastShortID (resolveAll sample_requests newShortIDCache).2
                  /\ s = strconv.FormatInt i 36)
  /\ (forall i,
        1 <= i <= lastShortID (resolveAll sample_requests newShortIDCache).2 ->
        exists k, labels2ShortIds (resolveAll sample_requests newShortIDCache).2 !! k
                  = Some (strconv.FormatInt i 36)).
Proof.
  apply (counter_counts_identities sample_requests). vm_compute. reflexivity.
Defined.

(** X7.  Descriptors are never changed: a descriptor the cache holds
    after some calls is still there, under the same token, after any
    further calls (as long as the counter has not wrapped). *)
Theorem descriptors_immutable (reqs more : list shortKey) s info :
  Z.of_nat (length reqs + length more) < 2 ^ 63 ->
  shortIds2Infos (resolveAll reqs newShortIDCache).2 !! s = Some info ->
  shortIds2Infos (resolveAll more (resolveAll reqs newShortIDCache).2).2 !! s
    = Some info.
Proof.
  intros Hlen Hs.
  destruct (resolveAll_numbered reqs newShortIDCache numbered_new)
    as (Hn & Hl & _); [cbn; lia |]. cbn in Hl.
  destruct (resolveAll_numbered more _ Hn) as (_ & _ & Hi); [lia |].
  by apply Hi.
Qed.

(** X8.  What a token means: after any sequence of calls on the cache of
    a fresh process (shorter than 2^63), the descriptor stored under the
    token of an identity with a declared URN is the descriptor of that
    very identity, and the batch lookup returns it. *)
Theorem descriptor_matches_identity (reqs : list shortKey) k s :
  Z.of_nat (length reqs) < 2 ^ 63 ->
  labels2ShortIds (resolveAll reqs newShortIDCache).2 !! k = Some s ->
  supported (Urn k) ->
  exists info,
    descriptor (Labels k) (Urn k) = Ok info
    /\ shortIds2Infos (resolveAll reqs newShortIDCache).2 !! s = Some info
    /\ ppb.Labels info = userLabels (Labels k)
    /\ index sUrns (Urn k) = Ok (ppb.Urn info)
    /\ shortIdsToInfos [s] (resolveAll reqs newShortIDCache).2 !! s
       = Some (Some info).
Proof.
  intros Hlen Hk Hu.
  destruct (resolveAll_numbered reqs newShortIDCache numbered_new)
    as ([_ _ _ _ _ Hdesc] & _ & _); [cbn; lia |].
  destruct (descriptor_supported (Labels k) (Urn k) Hu) as [info Hd].
  destruct (descriptor_fields _ _ _ Hd) as (Hn & _ & Hl & _).
  pose proof (Hdesc _ _ _ Hk Hd) as Hs.
  exists info. repeat split; try done.
  unfold shortIdsToInfos. cbn. by rewrite lookup_insert_eq, Hs.
Qed.

Lemma descriptors_immutable_witness :
  exists info,
    shortIds2Infos (resolveAll sample_requests newShortIDCache).2 !! "2" = Some info
    /\ shortIds2Infos
         (resolveAll sample_more_requests
            (resolveAll sample_requests newShortIDCache).2).2 !! "2" = Some info.
Proof.
  eexists. split; [vm_compute; reflexivity |].
  apply (descriptors_immutable sample_requests sample_more_requests);
    vm_compute; reflexivity.
Defined.

Lemma descriptor_matches_identity_witness :
  exists info,
    descriptor labels_t1_ns_n urnUserDistInt64 = Ok info
    /\ shortIds2Infos (resolveAll sample_requests newShortIDCache).2 !! "2" = Some info
    /\ ppb.Labels info = userLabels labels_t1_ns_n
    /\ index sUrns urnUserDistInt64 = Ok (ppb.Urn info)
    /\ shortIdsToInfos ["2"] (resolveAll sample_requests newShortIDCache).2 !! "2"
       = Some (Some info).
Proof.
  apply (descriptor_matches_identity sample_requests
           {| Labels := labels_t1_ns_n; Urn := urnUserDistInt64 |} "2").
  - vm_compute. reflexivity.
  - vm_compute. reflexivity.
  - by apply N.ltb_lt.
Defined.

End CacheLifetime.

(** ** The shape of a reporting pass *)

Module SnapshotShape.

Import RegistryFacts CodecFacts StrconvFacts CacheFacts SnapshotFacts CacheLifetime.

Section with_time.
Context `{TimeAPI}.

Lemma urnOf_supported c : supported (urnOf c).
Proof. destruct c; by apply N.ltb_lt. Qed.

Lemma typeOf_lt c : (N.to_nat (typeOf c) < length sTypes)%nat.
Proof. destruct c; by apply Nat.ltb_lt. Qed.

Lemma visit_info_eq lc fr :
  metrics.visit infoExtractor lc fr =
    report lc.1 (urnOf lc.2) (typeOf lc.2) (payloadOf lc.2) fr.
Proof.
  destruct lc as [l [v | count sum min max | v t]]; unfold metrics.visit;
    cbn [fst snd urnOf typeOf payloadOf].
  - apply info_SumInt64.
  - rewrite info_DistributionInt64. by rewrite int64Distribution_eq.
  - apply info_GaugeInt64.
Qed.

Lemma tokenOf_bound l urn c s :
  labels2ShortIds c !! {| Labels := l; Urn := urn |} = Some s ->
  tokenOf c {| Labels := l; Urn := urn |} = s.
Proof. intros Hk. unfold tokenOf. by rewrite Hk. Qed.

(** One visit of the second extractor. *)
Lemma visit_info_step lc fr :
  metrics.visit infoExtractor lc fr = (Ok tt, stepInfo lc fr).
Proof.
  rewrite visit_info_eq.
  destruct (report_supported lc.1 (urnOf lc.2) (typeOf lc.2) (payloadOf lc.2) fr
              (urnOf_supported _) (typeOf_lt _))
    as (s & c' & u & ty & Hcall & Hu & Hty & ->).
  pose proof (getShortID_binds lc.1 (urnOf lc.2) (cache fr)) as (s' & Hb & Hs').
  unfold stepInfo, recordOf. rewrite Hcall in Hb, Hs' |- *. cbn in Hb, Hs' |- *.
  rewrite <- (Hs' s eq_refl) in Hb.
  unfold keyOf. rewrite (tokenOf_bound _ _ _ _ Hb), Hu, Hty. reflexivity.
Qed.

Lemma tokenOf_weaken c c' k :
  labels2ShortIds c ⊆ labels2ShortIds c' ->
  is_Some (labels2ShortIds c !! k) -> tokenOf c' k = tokenOf c k.
Proof.
  intros Hsub [s Hs]. unfold tokenOf.
  by rewrite Hs, (lookup_weaken _ _ _ _ Hs Hsub).
Qed.

Lemma payloadsOf_ext c c' store pl :
  (forall lc, lc ∈ store -> tokenOf c' (keyOf lc) = tokenOf c (keyOf lc)) ->
  payloadsOf c' store pl = payloadsOf c store pl.
Proof.
  unfold payloadsOf. revert pl.
  induction store as [|lc store IH]; intros pl Hext; cbn; [done |].
  rewrite (Hext lc) by left. apply IH. intros lc' Hin. apply Hext. by right.
Qed.

(** After a sequence of calls every requested identity is bound. *)
Lemma resolveAll_binds reqs c k :
  k ∈ reqs -> is_Some (labels2ShortIds (resolveAll reqs c).2 !! k).
Proof.
  revert c. induction reqs as [|k0 reqs IH]; intros c Hin;
    [by apply elem_of_nil in Hin |].
  cbn [resolveAll].
  pose proof (getShortID_binds (Labels k0) (Urn k0) c) as (s & Hb & _).
  destruct (getShortID (Labels k0) (Urn k0) c) as [r c1]. cbn in Hb.
  pose proof (resolveAll_mono reqs c1) as Hm. specialize (IH c1).
  destruct (resolveAll reqs c1) as [rs c2]. cbn in *.
  apply elem_of_cons in Hin as [-> | Hin]; [| by apply IH].
  destruct k0. cbn in Hb. exists s. by eapply lookup_weaken.
Qed.


(** The second extractor over a whole store: it resolves the identities
    of the cells in visiting order, appends one record per cell and files
    each payload under the token of its identity. *)
Lemma info_pass_eq store fr :
  metrics.ExtractFrom infoExtractor store fr =
    (Ok tt,
     {| cache := (resolveAll (map keyOf store) (cache fr)).2;
        transforms := transforms fr;
        monitoringInfo := monitoringInfo fr ++ map recordOf store;
        payloads :=
          payloadsOf (resolveAll (map keyOf store) (cache fr)).2 store (payloads fr) |}).
Proof.
  revert fr. induction store as [|lc store IH]; intros fr.
  { cbn. unfold ret. rewrite app_nil_r. by destruct fr. }
  cbn [metrics.ExtractFrom]. unfold bind at 1.
  rewrite visit_info_step, IH. cbn [map resolveAll].
  pose proof (getShortID_binds lc.1 (urnOf lc.2) (cache fr)) as (s & Hb & _).
  change (Labels (keyOf lc)) with lc.1. change (Urn (keyOf lc)) with (urnOf lc.2).
  unfold stepInfo at 1 2 3 4. cbn [cache transforms monitoringInfo payloads].
  destruct (getShortID lc.1 (urnOf lc.2) (cache fr)) as [r c1] eqn:Hcall.
  cbn [snd] in Hb |- *.
  pose proof (resolveAll_mono (map keyOf store) c1) as Hm.
  destruct (resolveAll (map keyOf store) c1) as [rs c2]. cbn [snd] in Hm |- *.
  f_equal. f_equal.
  - by rewrite <- app_assoc.
  - unfold stepInfo. rewrite Hcall. cbn [payloads snd].
    change (payloadsOf c2 (lc :: store) (payloads fr))
      with (payloadsOf c2 store
              (<[tokenOf c2 (keyOf lc) := payloadOf lc.2]> (payloads fr))).
    rewrite (tokenOf_weaken c1 c2 (keyOf lc) Hm); [reflexivity |].
    unfold keyOf. eauto.
Qed.

(** One visit of the first extractor. *)
Lemma visit_legacy_step lc fr :
  metrics.visit legacyExtractor lc fr =
    match userOf lc with
    | inl u =>
        (Ok tt,
         {| cache := cache fr;
            transforms := addUser (metrics.Transform lc.1) u (transforms fr);
            monitoringInfo := monitoringInfo fr;
            payloads := payloads fr |})
    | inr err => (Panic (PanicError err), fr)
    end.
Proof.
  assert (Hadd : forall l u,
             (let* pb := getTransform l in appendUser pb u) fr =
               (Ok tt,
                {| cache := cache fr;
                   transforms := addUser (metrics.Transform l) u (transforms fr);
                   monitoringInfo := monitoringInfo fr;
                   payloads := payloads fr |})).
  { intros l u. unfold addUser, getTransform, appendUser, bind, get, modify, ret. cbn.
    destruct (transforms fr !! metrics.Transform l); reflexivity. }
  destruct lc as [l [v | count sum min max | v t]]; unfold metrics.visit, userOf;
    cbn [fst snd legacyExtractor metrics.SumInt64 metrics.DistributionInt64
           metrics.GaugeInt64].
  - apply Hadd.
  - apply Hadd.
  - destruct (TimestampProto t) as [ts | err]; [apply Hadd | reflexivity].
Qed.

(** The first extractor over a whole store: it builds the legacy tree and
    panics at the first timestamp that does not convert. *)
Lemma legacy_pass_eq store fr :
  exists T,
    metrics.ExtractFrom legacyExtractor store fr =
      (match firstTimestampError store with
       | None => Ok tt
       | Some err => Panic (PanicError err)
       end,
       {| cache := cache fr; transforms := T;
          monitoringInfo := monitoringInfo fr; payloads := payloads fr |})
    /\ (firstTimestampError store = None -> T = legacyTree store (transforms fr)).
Proof.
  revert fr. induction store as [|lc store IH]; intros fr.
  { exists (transforms fr). cbn. unfold ret. split; [by destruct fr | done]. }
  cbn [metrics.ExtractFrom firstTimestampError legacyTree]. unfold bind at 1.
  rewrite visit_legacy_step.
  destruct (userOf lc) as [u | err].
  - destruct (IH {| cache := cache fr;
                    transforms := addUser (metrics.Transform lc.1) u (transforms fr);
                    monitoringInfo := monitoringInfo fr;
                    payloads := payloads fr |}) as (T & -> & HT).
    exists T. split; [reflexivity | exact HT].
  - exists (transforms fr). split; [by destruct fr | discriminate].
Qed.

(** [monitoring] on a plan with a store, in closed form. *)
Lemma monitoring_shape store progress c :
  monitoring {| exec.Store := Some store; exec.Progress := progress |} c =
    match firstTimestampError store with
    | Some err => (Panic (PanicError err), c)
    | None =>
        (Ok (Some {| fnpb.Ptransforms := progressTree progress (legacyTree store ∅) |},
             map recordOf store ++ progressRecords progress,
             Some (payloadsOf (resolveAll (map keyOf store) c).2 store ∅)),
         (resolveAll (map keyOf store) c).2)
    end.
Proof.
  rewrite monitoring_eq.
  destruct (legacy_pass_eq store (enter c)) as (T & -> & HT).
  destruct (firstTimestampError store) as [err |]; [reflexivity |].
  rewrite (HT eq_refl), info_pass_eq. cbn.
  destruct progress; unfold returned, merged, progressRecords; cbn;
    rewrite ?app_nil_r; reflexivity.
Qed.

(** *** The legacy tree *)

Lemma addUser_lookup t u T t' :
  addUser t u T !! t' =
    if decide (t = t')
    then Some {| fnpb.ProcessedElements :=
                   fnpb.ProcessedElements (default newPTransform (T !! t));
                 fnpb.User := fnpb.User (default newPTransform (T !! t)) ++ [u] |}
    else T !! t'.
Proof.
  unfold addUser. rewrite lookup_alter. case_decide as Heq.
  - destruct (T !! t) as [p |] eqn:Ht; cbn.
    + by rewrite Ht.
    + by rewrite lookup_insert_eq.
  - destruct (T !! t) as [p |] eqn:Ht; [done |]. by rewrite lookup_insert_ne.
Qed.

Lemma legacyTree_lookup store T t :
  firstTimestampError store = None ->
  legacyTree store T !! t =
    match usersAt t store with
    | [] => T !! t
    | us =>
        Some {| fnpb.ProcessedElements :=
                  fnpb.ProcessedElements (default newPTransform (T !! t));
                fnpb.User := fnpb.User (default newPTransform (T !! t)) ++ us |}
    end.
Proof.
  revert T. induction store as [|lc store IH]; intros T Hok; [done |].
  cbn [firstTimestampError legacyTree usersAt] in Hok |- *.
  destruct (userOf lc) as [u | err]; [| discriminate].
  rewrite (IH _ Hok), addUser_lookup.
  destruct (decide (metrics.Transform lc.1 = t)) as [Heq | Hne].
  - subst t. destruct (usersAt _ store) as [| u' us]; cbn; [done |].
    by rewrite <- app_assoc.
  - done.
Qed.

(** *** Payloads *)

Lemma payloadsOf_notin c store pl s :
  (forall lc, lc ∈ store -> tokenOf c (keyOf lc) <> s) ->
  payloadsOf c store pl !! s = pl !! s.
Proof.
  unfold payloadsOf. revert pl.
  induction store as [|x store IH]; intros pl Hn; cbn; [done |].
  rewrite IH by (intros lc Hin; apply Hn; by right).
  rewrite lookup_insert_ne; [done |]. apply Hn. by left.
Qed.

Lemma payloadsOf_keys c store pl s :
  is_Some (payloadsOf c store pl !! s) ->
  is_Some (pl !! s) \/ exists lc, lc ∈ store /\ tokenOf c (keyOf lc) = s.
Proof.
  unfold payloadsOf. revert pl.
  induction store as [|x store IH]; intros pl Hs; cbn in Hs; [by left |].
  destruct (IH _ Hs) as [Hpl | (lc & Hin & Htok)].
  - rewrite lookup_insert in Hpl. case_decide as Heq.
    + right. exists x. split; [by left | done].
    + by left.
  - right. exists lc. split; [by right | done].
Qed.

Lemma payloadsOf_lookup c store pl lc :
  (forall x y, x ∈ store -> y ∈ store ->
     tokenOf c (keyOf x) = tokenOf c (keyOf y) -> keyOf x = keyOf y) ->
  NoDup (map keyOf store) -> lc ∈ store ->
  payloadsOf c store pl !! tokenOf c (keyOf lc) = Some (payloadOf lc.2).
Proof.
  revert pl. induction store as [|x store IH]; intros pl Hinj Hnd Hin;
    [by apply elem_of_nil in Hin |].
  change (map keyOf (x :: store)) with (keyOf x :: (keyOf <$> store)) in Hnd.
  apply NoDup_cons in Hnd as [Hx Hnd].
  change (payloadsOf c (x :: store) pl)
    with (payloadsOf c store (<[tokenOf c (keyOf x) := payloadOf x.2]> pl)).
  apply elem_of_cons in Hin as [-> | Hin].
  - rewrite payloadsOf_notin; [by rewrite lookup_insert_eq |].
    intros y Hy Heq. apply Hx. apply list_elem_of_fmap. exists y. split; [| done].
    symmetry. apply Hinj; [by right | by left | done].
  - apply IH; [| done | done].
    intros a b Ha Hb. apply Hinj; by right.
Qed.

(** *** What a pass returns *)

(** X9.  The only panic of a pass comes from a gauge whose timestamp does
    not convert: the pass panics with the error of the first such cell
    the extraction meets, before the cache is touched; without such a
    cell the pass returns. *)
Theorem pass_panics_only_on_timestamp store progress c :
  match firstTimestampError store with
  | Some err =>
      monitoring {| exec.Store := Some store; exec.Progress := progress |} c
        = (Panic (PanicError err), c)
  | None =>
      exists r c',
        monitoring {| exec.Store := Some store; exec.Progress := progress |} c
          = (Ok r, c')
  end.
Proof.
  rewrite monitoring_shape. destruct (firstTimestampError store); eauto.
Qed.

(** X10.  The record list of a pass that returns has one full record per
    cell of the store, in visiting order, followed by the element-count
    record when a progress snapshot is supplied; it is the same whatever
    the cache already knows. *)
Theorem records_follow_store store progress c tree infos pl c' :
  monitoring {| exec.Store := Some store; exec.Progress := progress |} c
    = (Ok (tree, infos, pl), c') ->
  infos = map recordOf store ++ progressRecords progress
  /\ length infos = (length store + length (progressRecords progress))%nat
  /\ forall i lc, store !! i = Some lc ->
        exists r, infos !! i = Some r
                  /\ ppb.Labels r = userLabels lc.1
                  /\ ppb.Payload r = payloadOf lc.2
                  /\ index sUrns (urnOf lc.2) = Ok (ppb.Urn r)
                  /\ index sTypes (typeOf lc.2) = Ok (ppb.Type_ r).
Proof.
  rewrite monitoring_shape.
  destruct (firstTimestampError store); [discriminate |].
  intros [= _ <- _ _]. split; [done |]. split.
  { by rewrite length_app, length_map. }
  intros i lc Hi. exists (recordOf lc). split.
  { rewrite lookup_app_l by (rewrite length_map; by eapply lookup_lt_Some).
    change (map recordOf store) with (recordOf <$> store).
    unfold metrics.Store in *. by rewrite list_lookup_fmap, Hi. }
  unfold recordOf. cbn. repeat split; by destruct lc as [l []].
Qed.

(** X11.  The only effect of a pass that returns on the cache is to
    resolve the identities of the store in visiting order: afterwards
    every identity of the store is bound, and what was bound before still
    is. *)
Theorem pass_resolves_store_identities store progress c r c' :
  monitoring {| exec.Store := Some store; exec.Progress := progress |} c
    = (Ok r, c') ->
  c' = (resolveAll (map keyOf store) c).2
  /\ (forall lc, lc ∈ store -> is_Some (labels2ShortIds c' !! keyOf lc))
  /\ labels2ShortIds c ⊆ labels2ShortIds c'.
Proof.
  rewrite monitoring_shape.
  destruct (firstTimestampError store); [discriminate |].
  intros [= _ <-]. split; [done |]. split.
  - intros lc Hin. apply resolveAll_binds.
    change (map keyOf store) with (keyOf <$> store).
    apply list_elem_of_fmap. eauto.
  - apply resolveAll_mono.
Qed.

(** X12.  Each payload is filed under the short id of its own metric.  On
    a cache built from the start of the process (counter not wrapped), for
    a store whose cells have distinct identities, a pass that returns maps
    the short id of every cell to the payload encoded for that cell, and
    every key of the payload map is the short id of a cell of the
    store. *)
Theorem payloads_under_own_short_ids reqs store progress tree infos pl c' :
  (Z.of_nat (length reqs + length store) < 2 ^ 63)%Z ->
  NoDup (map keyOf store) ->
  monitoring {| exec.Store := Some store; exec.Progress := progress |}
    (resolveAll reqs newShortIDCache).2 = (Ok (tree, infos, Some pl), c') ->
  (forall lc, lc ∈ store ->
     exists s, labels2ShortIds c' !! keyOf lc = Some s
               /\ pl !! s = Some (payloadOf lc.2))
  /\ (forall s, is_Some (pl !! s) ->
        exists lc, lc ∈ store /\ labels2ShortIds c' !! keyOf lc = Some s).
Proof.
  intros Hlen Hnd. rewrite monitoring_shape.
  destruct (firstTimestampError store); [discriminate |].
  intros [= _ _ <- <-].
  set (c' := (resolveAll (map keyOf store) (resolveAll reqs newShortIDCache).2).2).
  assert (Hbound : forall lc, lc ∈ store ->
            exists s, labels2ShortIds c' !! keyOf lc = Some s
                      /\ tokenOf c' (keyOf lc) = s).
  { intros lc Hin.
    destruct (resolveAll_binds (map keyOf store)
                (resolveAll reqs newShortIDCache).2 (keyOf lc)) as [s Hs].
    { change (map keyOf store) with (keyOf <$> store).
      apply list_elem_of_fmap. eauto. }
    fold c' in Hs. exists s. split; [exact Hs |]. unfold tokenOf. by rewrite Hs. }
  assert (Hinv : tokens_inv c').
  { unfold c'. rewrite <- resolveAll_app.
    apply (resolveAll_tokens_inv _ newShortIDCache tokens_inv_new).
    rewrite length_app, length_map. cbn. lia. }
  split.
  - intros lc Hin. destruct (Hbound lc Hin) as (s & Hs & Htok).
    exists s. split; [exact Hs |]. rewrite <- Htok.
    apply payloadsOf_lookup; [| done | done].
    intros x y Hx Hy Heq.
    destruct (Hbound x Hx) as (sx & Hsx & Htx).
    destruct (Hbound y Hy) as (sy & Hsy & Hty).
    eapply (inv_inj _ Hinv); [exact Hsx |]. by rewrite <- Htx, Heq, Hty.
  - intros s Hs. apply payloadsOf_keys in Hs as [Hs | (lc & Hin & Htok)].
    + rewrite lookup_empty in Hs. by destruct Hs.
    + exists lc. split; [done |].
      destruct (Hbound lc Hin) as (s' & Hs' & Htok'). congruence.
Qed.

(** X13.  The legacy tree of a pass that returns groups the user entries
    by transform: a transform other than the one of the progress snapshot
    has an entry exactly when the store holds a cell of that transform,
    and the entry lists the cells of the transform in visiting order, with
    no element count. *)
Theorem legacy_tree_groups_by_transform store progress c m infos pl c' t :
  monitoring {| exec.Store := Some store; exec.Progress := progress |} c
    = (Ok (Some m, infos, pl), c') ->
  (forall snapshot, progress = Some snapshot -> t <> exec.ID snapshot) ->
  fnpb.Ptransforms m !! t = entryOf (usersAt t store).
Proof.
  rewrite monitoring_shape.
  destruct (firstTimestampError store) eqn:Hok; [discriminate |].
  intros [= <- _ _ _] Ht. cbn.
  assert (Htree : legacyTree store ∅ !! t = entryOf (usersAt t store)).
  { rewrite (legacyTree_lookup _ _ _ Hok), lookup_empty.
    by destruct (usersAt t store). }
  destruct progress as [snapshot |]; cbn; [| exact Htree].
  rewrite lookup_insert_ne; [exact Htree |].
  intros Heq. by apply (Ht snapshot).
Qed.


(** X15.  Nothing is ever evicted: whatever the plan, a pass keeps every
    binding of the cache and every descriptor's token. *)
Theorem pass_keeps_cache_entries p c :
  labels2ShortIds c ⊆ labels2ShortIds (monitoring p c).2
  /\ forall s, is_Some (shortIds2Infos c !! s) ->
               is_Some (shortIds2Infos (monitoring p c).2 !! s).
Proof.
  split.
  - apply (monitoring_cache_ind (fun c' => labels2ShortIds c ⊆ labels2ShortIds c'));
      [| done].
    intros l urn c1 Hc1. etrans; [exact Hc1 | apply getShortID_mono].
  - intros s Hs.
    apply (monitoring_cache_ind (fun c' => is_Some (shortIds2Infos c' !! s)));
      [| done].
    intros l urn c1 Hc1. by apply getShortID_infos_mono.
Qed.

(** X16.  Every cache the process can hold is the result of a sequence of
    [getShortID] calls on the fresh cache: a pass adds nothing that
    resolving the identities of its store would not add.  What holds after
    every sequence of calls therefore holds between passes too. *)
Theorem reachable_by_calls c :
  reachable c -> exists reqs, c = (resolveAll reqs newShortIDCache).2.
Proof.
  induction 1 as [| l urn c _ [reqs ->] | p c _ [reqs ->]].
  - by exists [].
  - exists (reqs ++ [{| Labels := l; Urn := urn |}]).
    rewrite resolveAll_app. cbn [resolveAll Labels Urn].
    by destruct (getShortID l urn (resolveAll reqs newShortIDCache).2).
  - destruct p as [[store |] progress]; [| by exists reqs].
    rewrite monitoring_shape.
    destruct (firstTimestampError store); [by exists reqs |].
    exists (reqs ++ map keyOf store). by rewrite resolveAll_app.
Qed.

End with_time.

(** *** Closed instances *)

Example pass_panics_sample :
  monitoring (H := strictTimeAPI)
    {| exec.Store := Some sample_bad_store; exec.Progress := Some snapshot_pc1 |}
    (resolveAll sample_requests newShortIDCache).2
  = (Panic (PanicError "timestamp: before epoch"),
     (resolveAll sample_requests newShortIDCache).2).
Proof. vm_compute. reflexivity. Qed.

Lemma records_follow_store_witness :
  exists tree infos pl c',
    monitoring (H := sampleTimeAPI)
      {| exec.Store := Some sample_store; exec.Progress := Some snapshot_pc1 |}
      newShortIDCache = (Ok (tree, infos, pl), c')
    /\ infos = map (recordOf (H := sampleTimeAPI)) sample_store
               ++ progressRecords (Some snapshot_pc1)
    /\ length infos = (length sample_store + length (progressRecords (Some snapshot_pc1)))%nat
    /\ forall i lc, sample_store !! i = Some lc ->
          exists r, infos !! i = Some r
                    /\ ppb.Labels r = userLabels lc.1
                    /\ ppb.Payload r = payloadOf (H := sampleTimeAPI) lc.2
                    /\ index sUrns (urnOf lc.2) = Ok (ppb.Urn r)
                    /\ index sTypes (typeOf lc.2) = Ok (ppb.Type_ r).
Proof.
  do 4 eexists. split; [vm_compute; reflexivity |].
  eapply (records_follow_store (H := sampleTimeAPI) sample_store
            (Some snapshot_pc1) newShortIDCache).
  vm_compute. reflexivity.
Defined.

Lemma pass_resolves_store_identities_witness :
  exists r c',
    monitoring (H := sampleTimeAPI)
      {| exec.Store := Some sample_store; exec.Progress := None |}
      newShortIDCache = (Ok r, c')
    /\ c' = (resolveAll (map keyOf sample_store) newShortIDCache).2
    /\ (forall lc, lc ∈ sample_store -> is_Some (labels2ShortIds c' !! keyOf lc))
    /\ labels2ShortIds newShortIDCache ⊆ labels2ShortIds c'.
Proof.
  do 2 eexists. split; [vm_compute; reflexivity |].
  eapply (pass_resolves_store_identities (H := sampleTimeAPI) sample_store None
            newShortIDCache).
  vm_compute. reflexivity.
Defined.

Lemma payloads_under_own_short_ids_witness :
  exists tree infos pl c',
    monitoring (H := sampleTimeAPI)
      {| exec.Store := Some sample_store; exec.Progress := None |}
      (resolveAll sample_requests newShortIDCache).2 = (Ok (tree, infos, Some pl), c')
    /\ (forall lc, lc ∈ sample_store ->
          exists s, labels2ShortIds c' !! keyOf lc = Some s
                    /\ pl !! s = Some (payloadOf (H := sampleTimeAPI) lc.2))
    /\ (forall s, is_Some (pl !! s) ->
          exists lc, lc ∈ sample_store /\ labels2ShortIds c' !! keyOf lc = Some s).
Proof.
  do 4 eexists. split; [vm_compute; reflexivity |].
  eapply (payloads_under_own_short_ids (H := sampleTimeAPI) sample_requests
            sample_store None).
  - vm_compute. reflexivity.
  - apply (bool_decide_unpack _). vm_compute. reflexivity.
  - vm_compute. reflexivity.
Defined.

Lemma legacy_tree_groups_by_transform_witness :
  exists m infos pl c',
    monitoring (H := sampleTimeAPI)
      {| exec.Store := Some sample_store; exec.Progress := Some snapshot_pc1 |}
      newShortIDCache = (Ok (Some m, infos, pl), c')
    /\ fnpb.Ptransforms m !! "t1"
       = entryOf (usersAt (H := sampleTimeAPI) "t1" sample_store).
Proof.
  do 4 eexists. split; [vm_compute; reflexivity |].
  eapply (legacy_tree_groups_by_transform (H := sampleTimeAPI) sample_store
            (Some snapshot_pc1) newShortIDCache).
  - vm_compute. reflexivity.
  - intros snapshot [= <-]. discriminate.
Defined.


Lemma reachable_by_calls_witness :
  exists reqs,
    (monitoring (H := sampleTimeAPI) sample_plan
       (getShortID labels_pc1_ns_n urnUserSumInt64 newShortIDCache).2).2
    = (resolveAll reqs newShortIDCache).2.
Proof.
  apply (reachable_by_calls (H := sampleTimeAPI)).
  apply reachable_monitoring, reachable_getShortID, reachable_new.
Defined.

End SnapshotShape.
